(** * mlly: module resolution and evaluation utilities (lib/index.mjs)

    A shallow embedding of the resolver, the import rewriter, the
    transformer and the evaluator of [lib/index.mjs], with the host
    primitives they call (the resolution algorithm, the file system, the
    URL codec, dynamic import) taken as a record of functions.

    JavaScript strings are modelled as [string] (sequences of 8-bit code
    units; a source text is its UTF-8 bytes).  Thrown values are error
    objects with a name, a message, a code and a stack. *)

From Stdlib Require Import String Ascii List Bool Arith Lia.
Import ListNotations.
Open Scope list_scope.
Open Scope string_scope.

Set Implicit Arguments.

(** ** Strings *)

Module Str.

(** [s.startsWith(p)] *)
Definition startsWith (s p : string) : bool := String.prefix p s.

(** [s.endsWith(suffix)] *)
Fixpoint endsWith (s suffix : string) : bool :=
  (s =? suffix) ||
  match s with
  | EmptyString => false
  | String _ s' => endsWith s' suffix
  end.

(** [s.includes(sub)] *)
Fixpoint includes (s sub : string) : bool :=
  String.prefix sub s ||
  match s with
  | EmptyString => false
  | String _ s' => includes s' sub
  end.

(** The text of [s] from index [n] on: [s.slice(n)]. *)
Fixpoint drop (n : nat) (s : string) : string :=
  match n, s with
  | 0, _ => s
  | S _, EmptyString => EmptyString
  | S k, String _ s' => drop k s'
  end.

(** The first [n] code units of [s]: [s.slice(0, n)]. *)
Fixpoint take (n : nat) (s : string) : string :=
  match n, s with
  | 0, _ => EmptyString
  | S _, EmptyString => EmptyString
  | S k, String c s' => String c (take k s')
  end.

(** [rev_onto s b] pushes the code units of [s] one by one onto [b]. *)
Fixpoint rev_onto (s b : string) : string :=
  match s with
  | EmptyString => b
  | String c s' => rev_onto s' (String c b)
  end.

(** [parts.join(sep)] *)
Fixpoint join (sep : string) (parts : list string) : string :=
  match parts with
  | [] => ""
  | [p] => p
  | p :: rest => p ++ sep ++ join sep rest
  end.

(** [Array.from(new Set(l))]: first occurrences, in insertion order. *)
Fixpoint unique_onto (seen l : list string) : list string :=
  match l with
  | [] => []
  | x :: l' =>
      if existsb (String.eqb x) seen then unique_onto seen l'
      else x :: unique_onto (x :: seen) l'
  end.

Definition unique (l : list string) : list string := unique_onto [] l.

(** JavaScript truthiness of a possibly undefined string. *)
Definition truthy (o : option string) : bool :=
  match o with
  | Some (String _ _) => true
  | _ => false
  end.

(** [s] occurs in [text] at index [p], code unit for code unit. *)
Definition occurs_at (s : string) (p : nat) (text : string) : Prop :=
  p <= String.length text /\ String.prefix s (drop p text) = true.

End Str.

(** ** Regular expressions

    The fragment of ECMAScript regular expressions the library uses.  The
    matcher follows the backtracking semantics of the language: a pattern
    maps a state (the text before and after the current index) to the list
    of end states in priority order, so the head of the list is the match
    [RegExp.prototype.exec] reports.  Lookbehind runs the pattern in the
    backward direction, as the language specifies. *)

Module Regex.

Inductive cset : Type :=
| CLit (c : ascii)          (* a pattern character *)
| CDot                      (* [.] : anything but a line terminator *)
| CSpace                    (* [\s] *)
| COneOf (l : string)       (* [[...]] *)
| CNoneOf (l : string).     (* [[^...]] *)

Inductive regex : Type :=
| REmpty
| RChar (cs : cset)
| RSeq (r1 r2 : regex)
| RAlt (r1 r2 : regex)
| RStar (r : regex)         (* greedy [r*] *)
| RGroup (r : regex)        (* capturing group [(r)] *)
| RLookahead (r : regex)    (* [(?=r)] *)
| RLookbehind (r : regex).  (* [(?<=r)] *)

Definition RPlus (r : regex) : regex := RSeq r (RStar r).
Definition ROpt (r : regex) : regex := RAlt r REmpty.

(** The pattern of a literal text. *)
Fixpoint lit (s : string) : regex :=
  match s with
  | EmptyString => REmpty
  | String c s' => RSeq (RChar (CLit c)) (lit s')
  end.

Fixpoint mem (c : ascii) (l : string) : bool :=
  match l with
  | EmptyString => false
  | String d l' => Ascii.eqb c d || mem c l'
  end.

(** Line feed and carriage return (the line terminators outside ASCII are
    not single code units of a UTF-8 text). *)
Definition line_terminator (c : ascii) : bool :=
  mem c (String "010"%char (String "013"%char "")).

(** The ASCII white space of [\s]: tab, line feed, vertical tab, form feed,
    carriage return, space. *)
Definition white_space (c : ascii) : bool :=
  mem c (String "009"%char (String "010"%char (String "011"%char
        (String "012"%char (String "013"%char " "))))).

Definition cset_mem (cs : cset) (c : ascii) : bool :=
  match cs with
  | CLit d => Ascii.eqb c d
  | CDot => negb (line_terminator c)
  | CSpace => white_space c
  | COneOf l => mem c l
  | CNoneOf l => negb (mem c l)
  end.

(** Text before the index (nearest code unit first) and text after it. *)
Definition state : Type := string * string.

Inductive direction : Type := Forward | Backward.

Definition index_of (st : state) : nat := String.length (fst st).

Definition step_char (d : direction) (cs : cset) (st : state) : list state :=
  match d with
  | Forward =>
      match snd st with
      | String c a' => if cset_mem cs c then [(String c (fst st), a')] else []
      | EmptyString => []
      end
  | Backward =>
      match fst st with
      | String c b' => if cset_mem cs c then [(b', String c (snd st))] else []
      | EmptyString => []
      end
  end.

(** The iterations of a greedy star: one more iteration first, then none.
    An iteration that matches the empty text is rejected. *)
Fixpoint star_loop (step : state -> list state) (n : nat) (st0 : state)
  {struct n} : list state :=
  match n with
  | 0 => [st0]
  | S k =>
      (flat_map
         (fun st1 =>
            if Nat.eqb (index_of st1) (index_of st0) then []
            else star_loop step k st1)
         (step st0)
       ++ [st0])%list
  end.

Fixpoint rmatch (d : direction) (r : regex) (fuel : nat) (st : state)
  {struct r} : list state :=
  match r with
  | REmpty => [st]
  | RChar cs => step_char d cs st
  | RSeq r1 r2 =>
      match d with
      | Forward => flat_map (rmatch d r2 fuel) (rmatch d r1 fuel st)
      | Backward => flat_map (rmatch d r1 fuel) (rmatch d r2 fuel st)
      end
  | RAlt r1 r2 => (rmatch d r1 fuel st ++ rmatch d r2 fuel st)%list
  | RStar r1 => star_loop (rmatch d r1 fuel) fuel st
  | RGroup r1 => rmatch d r1 fuel st
  | RLookahead r1 =>
      match rmatch Forward r1 fuel st with
      | [] => []
      | _ :: _ => [st]
      end
  | RLookbehind r1 =>
      match rmatch Backward r1 fuel st with
      | [] => []
      | _ :: _ => [st]
      end
  end.

(** Every iteration of a star moves the index, so the length of the text
    bounds the number of iterations ([rmatch_fuel_enough]). *)
Definition fuel_for (st : state) : nat :=
  S (String.length (fst st) + String.length (snd st)).

(** The match at the current index, if any: the number of code units it
    spans. *)
Definition match_here (r : regex) (st : state) : option nat :=
  match rmatch Forward r (fuel_for st) st with
  | [] => None
  | st' :: _ => Some (index_of st' - index_of st)
  end.

(** [re.test(s)] for a pattern without the global flag. *)
Fixpoint test_from (r : regex) (b a : string) {struct a} : bool :=
  match match_here r (b, a) with
  | Some _ => true
  | None =>
      match a with
      | EmptyString => false
      | String c a' => test_from r (String c b) a'
      end
  end.

Definition test (r : regex) (s : string) : bool := test_from r "" s.

(** One pass of a global pattern over a text: the code units kept and the
    matches found, in text order.  After a match the scan resumes at its
    end; after an empty match it moves one code unit on. *)
Inductive segment : Type :=
| Keep (c : ascii)
| Hit (index : nat) (matched : string).

Fixpoint segments (r : regex) (skip : nat) (b a : string) {struct a}
  : list segment :=
  match skip with
  | S k =>
      match a with
      | EmptyString => []
      | String c a' => segments r k (String c b) a'
      end
  | 0 =>
      match match_here r (b, a) with
      | Some n =>
          Hit (String.length b) (Str.take n a) ::
          match a with
          | EmptyString => []
          | String c a' =>
              match n with
              | 0 => Keep c :: segments r 0 (String c b) a'
              | S k => segments r k (String c b) a'
              end
          end
      | None =>
          match a with
          | EmptyString => []
          | String c a' => Keep c :: segments r 0 (String c b) a'
          end
      end
  end.

Definition hits_of (segs : list segment) : list (nat * string) :=
  flat_map (fun sg => match sg with
                      | Keep _ => []
                      | Hit p m => [(p, m)]
                      end) segs.

(** The matches of one global pass: index and matched text. *)
Definition hits (r : regex) (s : string) : list (nat * string) :=
  hits_of (segments r 0 "" s).

(** [Array.from(s.matchAll(re)).map(m => m[0])] *)
Definition matchAll0 (r : regex) (s : string) : list string :=
  map snd (hits r s).

(** [s.replace(re, fn)] with a global pattern and a replacer function of
    the matched text. *)
Definition render (segs : list segment) (repl : nat -> string -> string)
  : string :=
  fold_right
    (fun sg out => match sg with
                   | Keep c => String c out
                   | Hit p m => repl p m ++ out
                   end) "" segs.

Definition replace_fn (r : regex) (s : string) (fn : string -> string)
  : string :=
  render (segments r 0 "" s) (fun _ m => fn m).

(** The replacement text of [s.replace(re, template)] for a pattern
    without capture groups: [$$], [$&], [$`] and [$'] are expanded, any
    other use of [$] stands for itself. *)
Fixpoint substitution (template matched before after : string) : string :=
  match template with
  | EmptyString => ""
  | String "$"%char (String "$"%char t) =>
      String "$"%char (substitution t matched before after)
  | String "$"%char (String "&"%char t) =>
      matched ++ substitution t matched before after
  | String "$"%char (String "`"%char t) =>
      before ++ substitution t matched before after
  | String "$"%char (String "'"%char t) =>
      after ++ substitution t matched before after
  | String c t => String c (substitution t matched before after)
  end.

Definition replace_str (r : regex) (s template : string) : string :=
  render (segments r 0 "" s)
    (fun p m =>
       substitution template m (Str.take p s)
         (Str.drop (p + String.length m) s)).

(** *** [new RegExp(source)]

    The pattern syntax covered: pattern characters, [.], groups,
    alternation and the greedy quantifiers [*], [+] and [?].  A source
    that uses anything else is reported as [Unsupported]. *)

Inductive token : Type :=
| TkOpen | TkClose | TkBar | TkStar | TkPlus | TkQuest | TkDot
| TkOther                    (* [\ [ ] { } ^ $] *)
| TkChar.

Definition classify (c : ascii) : token :=
  if Ascii.eqb c "("%char then TkOpen
  else if Ascii.eqb c ")"%char then TkClose
  else if Ascii.eqb c "|"%char then TkBar
  else if Ascii.eqb c "*"%char then TkStar
  else if Ascii.eqb c "+"%char then TkPlus
  else if Ascii.eqb c "?"%char then TkQuest
  else if Ascii.eqb c "."%char then TkDot
  else if mem c "\[]{}^$" then TkOther
  else TkChar.

(** What a quantifier would apply to. *)
Inductive last_term : Type :=
| AtOpen          (* right after [(] *)
| AtStart         (* at the start of the pattern or of an alternative *)
| AfterAtom
| AfterQuantifier.

Record frame : Type := {
  alts : list regex;     (* finished alternatives, latest first *)
  terms : list regex;    (* terms of the current alternative, latest first *)
  last : last_term
}.

Definition frame0 (l : last_term) : frame :=
  {| alts := []; terms := []; last := l |}.

Definition seq_of (ts : list regex) : regex :=
  fold_left (fun acc t => RSeq t acc) ts REmpty.

Fixpoint alt_of (first : regex) (rest : list regex) : regex :=
  match rest with
  | [] => first
  | r :: rest' => RAlt first (alt_of r rest')
  end.

(** The disjunction a frame stands for. *)
Definition close (f : frame) : regex :=
  match rev (seq_of (terms f) :: alts f) with
  | [] => REmpty
  | r :: rest => alt_of r rest
  end.

Definition push_atom (f : frame) (r : regex) : frame :=
  {| alts := alts f; terms := r :: terms f; last := AfterAtom |}.

Definition next_alt (f : frame) : frame :=
  {| alts := seq_of (terms f) :: alts f; terms := []; last := AtStart |}.

Inductive parsed : Type :=
| Parsed (r : regex)
| SyntaxError (msg : string)
| Unsupported.

Definition quantify (f : frame) (q : regex -> regex) (lazy : bool)
  : frame + parsed :=
  match last f, terms f with
  | AfterAtom, t :: ts =>
      inl {| alts := alts f; terms := q t :: ts; last := AfterQuantifier |}
  | AfterQuantifier, _ =>
      if lazy then inr Unsupported else inr (SyntaxError "Nothing to repeat")
  | AtOpen, _ =>
      if lazy then inr Unsupported else inr (SyntaxError "Nothing to repeat")
  | _, _ => inr (SyntaxError "Nothing to repeat")
  end.

Fixpoint parse (src : string) (cur : frame) (stack : list frame)
  {struct src} : parsed :=
  match src with
  | EmptyString =>
      match stack with
      | [] => Parsed (close cur)
      | _ :: _ => SyntaxError "Unterminated group"
      end
  | String c rest =>
      match classify c with
      | TkOpen => parse rest (frame0 AtOpen) (cur :: stack)
      | TkClose =>
          match stack with
          | [] => SyntaxError "Unmatched ')'"
          | parent :: stack' =>
              parse rest (push_atom parent (RGroup (close cur))) stack'
          end
      | TkBar => parse rest (next_alt cur) stack
      | TkStar =>
          match quantify cur RStar false with
          | inl f => parse rest f stack
          | inr e => e
          end
      | TkPlus =>
          match quantify cur RPlus false with
          | inl f => parse rest f stack
          | inr e => e
          end
      | TkQuest =>
          match quantify cur ROpt true with
          | inl f => parse rest f stack
          | inr e => e
          end
      | TkDot => parse rest (push_atom cur (RChar CDot)) stack
      | TkOther => Unsupported
      | TkChar => parse rest (push_atom cur (RChar (CLit c))) stack
      end
  end.

Definition regexp_new (source : string) : parsed :=
  parse source (frame0 AtStart) [].

(** A specifier without pattern syntax characters. *)
Definition plain_char (c : ascii) : bool :=
  match classify c with
  | TkChar => true
  | _ => false
  end.

Fixpoint plain (s : string) : bool :=
  match s with
  | EmptyString => true
  | String c s' => plain_char c && plain s'
  end.

End Regex.

(** ** Values, failures and effects *)

(** An error object.  [err_toString] is the text the object's own
    [toString] gives, which is what [String(err)] and [new Error(err)]
    read: the one of [Error.prototype] for an error made by [new Error],
    the object's own for an error whose class overrides it (the errors of
    import-meta-resolve print their code between the name and the
    message). *)
Record JsError : Type := {
  err_name : string;
  err_message : string;
  err_code : option string;
  err_stack : string;
  err_toString : string
}.

(** The result of a host primitive. *)
Inductive completion (A : Type) : Type :=
| Normal (a : A)
| Throw (e : JsError).
Arguments Normal {A} a.
Arguments Throw {A} e.

(** A settled promise. *)
Inductive Promise (A : Type) : Type :=
| Fulfilled (a : A)
| Rejected (e : JsError).
Arguments Fulfilled {A} a.
Arguments Rejected {A} e.

(** A string or a [URL] object (given by its href). *)
Inductive StrOrURL : Type :=
| Str (s : string)
| URLObj (href : string).

(** A module namespace object: its exports. *)
Inductive Namespace : Type :=
| ModuleNamespace (exports : list (string * string)).

(** The calls made to the host, in order. *)
Inductive Event : Type :=
| EvModuleResolve (id url : string) (conditions : list string)
| EvRealpath (path : string)
| EvReadFile (path : string)
| EvImport (url : string).

(** Where the model stops: at a pattern outside the fragment
    [Regex.regexp_new] covers, or at the bottom of a bounded recursion. *)
Inductive abort : Type :=
| OutOfFragment
| OutOfFuel.

(** How a piece of code ends: with a value or by raising. *)
Inductive Outcome (A : Type) : Type :=
| Val (a : A)
| Exn (e : JsError)
| Abort (why : abort).
Arguments Val {A} a.
Arguments Exn {A} e.
Arguments Abort {A} why.

(** A computation: the host calls it makes and how it ends. *)
Definition M (A : Type) : Type := list Event * Outcome A.

Definition ret {A} (a : A) : M A := ([], Val a).

Definition throw {A} (e : JsError) : M A := ([], Exn e).

Definition bind {A B} (m : M A) (f : A -> M B) : M B :=
  match m with
  | (l, Val a) => let (l', o) := f a in ((l ++ l')%list, o)
  | (l, Exn e) => (l, Exn e)
  | (l, Abort w) => (l, Abort w)
  end.

Notation "x <- m ;; k" := (bind m (fun x => k))
  (at level 61, m at next level, right associativity).

(** [try { m } catch (err) { handler(err) }] *)
Definition try_catch {A} (m : M A) (handler : JsError -> M A) : M A :=
  match m with
  | (l, Exn e) => let (l', o) := handler e in ((l ++ l')%list, o)
  | _ => m
  end.

(** A call of a host primitive. *)
Definition call {A} (ev : Event) (c : completion A) : M A :=
  ([ev], match c with Normal a => Val a | Throw e => Exn e end).

Definition lift {A} (c : completion A) : M A :=
  ([], match c with Normal a => Val a | Throw e => Exn e end).

(** The body of an [async function]: a failure rejects the promise. *)
Definition async {A} (body : M A) : M (Promise A) :=
  match body with
  | (l, Val a) => (l, Val (Fulfilled a))
  | (l, Exn e) => (l, Val (Rejected e))
  | (l, Abort w) => (l, Abort w)
  end.

(** [await p] *)
Definition await {A} (p : Promise A) : M A :=
  match p with
  | Fulfilled a => ret a
  | Rejected e => throw e
  end.

Definition trace {A} (m : M A) : list Event := fst m.
Definition outcome {A} (m : M A) : Outcome A := snd m.

(** [Error.prototype.toString], for an object with this name and this
    message. *)
Definition Error_prototype_toString (name message : string) : string :=
  match name, message with
  | EmptyString, msg => msg
  | name, EmptyString => name
  | name, msg => name ++ ": " ++ msg
  end.

(** ** The host *)

Record Host : Type := {
  (** [module.builtinModules] *)
  builtinModules : list string;
  (** [pathToFileURL(process.cwd())] *)
  cwd_url : string;
  (** [moduleResolve(id, url, conditions)] of import-meta-resolve; the
      [URL] it returns is given by its href *)
  moduleResolve : string -> string -> list string -> completion string;
  (** [fs.realpathSync(path)] *)
  realpathSync : string -> completion string;
  (** [url.fileURLToPath(id)] *)
  url_fileURLToPath : StrOrURL -> completion string;
  (** [url.pathToFileURL(path).toString()] *)
  pathToFileURL : string -> completion string;
  (** [fs.promises.readFile(path, 'utf-8')] *)
  readFile : string -> completion string;
  (** [import(url)] *)
  dynamic_import : string -> completion Namespace;
  (** the frames the engine appends to the header of a stack trace *)
  stack_frames : string
}.

(** ** Base64 ([Buffer.from(code).toString('base64')]) *)

Module Base64.

Definition alphabet : string :=
  "ABCDEFGHIJKLMNOPQRSTUVWXYZabcdefghijklmnopqrstuvwxyz0123456789+/".

Definition digit (n : nat) : ascii :=
  match String.get n alphabet with
  | Some c => c
  | None => "="%char
  end.

(** The four 6-bit digits of three bytes. *)
Definition sextets3 (a b c : ascii) : string :=
  let x := nat_of_ascii a in
  let y := nat_of_ascii b in
  let z := nat_of_ascii c in
  String (digit (x / 4))
    (String (digit ((x mod 4) * 16 + y / 16))
       (String (digit ((y mod 16) * 4 + z / 64))
          (String (digit (z mod 64)) ""))).

Fixpoint encode (s : string) : string :=
  match s with
  | EmptyString => ""
  | String a EmptyString =>
      Str.take 2 (sextets3 a zero zero) ++ "=="
  | String a (String b EmptyString) =>
      Str.take 3 (sextets3 a b zero) ++ "="
  | String a (String b (String c rest)) =>
      sextets3 a b c ++ encode rest
  end.

End Base64.

(** ** The library *)

Record Opts : Type := {
  url : option string;
  conditions : option (list string);
  extensions : option (list string)
}.

Definition no_opts : Opts :=
  {| url := None; conditions := None; extensions := None |}.

Section Mlly.

Variable h : Host.

(** [new Error(message)] *)
Definition new_Error (message : string) : JsError :=
  {| err_name := "Error";
     err_message := message;
     err_code := None;
     err_stack := "Error: " ++ message ++ stack_frames h;
     err_toString := Error_prototype_toString "Error" message |}.

(** [new TypeError(message)], as raised by the engine *)
Definition new_TypeError (message : string) : JsError :=
  {| err_name := "TypeError";
     err_message := message;
     err_code := None;
     err_stack := "TypeError: " ++ message ++ stack_frames h;
     err_toString := Error_prototype_toString "TypeError" message |}.

Definition set_code (e : JsError) (c : option string) : JsError :=
  {| err_name := err_name e;
     err_message := err_message e;
     err_code := c;
     err_stack := err_stack e;
     err_toString := err_toString e |}.

Definition set_stack (e : JsError) (s : string) : JsError :=
  {| err_name := err_name e;
     err_message := err_message e;
     err_code := err_code e;
     err_stack := s;
     err_toString := err_toString e |}.

(** *** Resolve *)

Definition DEFAULT_CONDITIONS_SET : list string := ["node"; "import"].

Definition BUILTIN_MODULES_has (id : string) : bool :=
  existsb (String.eqb id) (builtinModules h).

Definition DEFAULT_URL : string := cwd_url h.

Definition DEFAULT_EXTENSIONS : list string :=
  [".mjs"; ".cjs"; ".js"; ".json"].

Definition NOT_FOUND_ERRORS : list string :=
  ["ERR_MODULE_NOT_FOUND"; "ERR_UNSUPPORTED_DIR_IMPORT"; "MODULE_NOT_FOUND"].

Definition NOT_FOUND_ERRORS_has (code : option string) : bool :=
  match code with
  | Some c => existsb (String.eqb c) NOT_FOUND_ERRORS
  | None => false
  end.

(** [/(node|data|http|https):/] *)
Definition PROTOCOL_RE : Regex.regex :=
  Regex.RSeq
    (Regex.RGroup
       (Regex.RAlt (Regex.lit "node")
          (Regex.RAlt (Regex.lit "data")
             (Regex.RAlt (Regex.lit "http") (Regex.lit "https")))))
    (Regex.lit ":").

(** [/(node|data|http|https|file):/] *)
Definition PROTOCOL_OR_FILE_RE : Regex.regex :=
  Regex.RSeq
    (Regex.RGroup
       (Regex.RAlt (Regex.lit "node")
          (Regex.RAlt (Regex.lit "data")
             (Regex.RAlt (Regex.lit "http")
                (Regex.RAlt (Regex.lit "https") (Regex.lit "file"))))))
    (Regex.lit ":").

(** [str.replace(/\\/g, '/')] *)
Definition normalizeSlash (str : string) : string :=
  Regex.replace_str (Regex.RChar (Regex.CLit "\"%char)) str "/".

Definition fileURLToPath (id : StrOrURL) : completion string :=
  match id with
  | Str s =>
      if negb (Str.startsWith s "file://") then Normal (normalizeSlash s)
      else
        match url_fileURLToPath h id with
        | Normal p => Normal (normalizeSlash p)
        | Throw e => Throw e
        end
  | URLObj _ =>
      match url_fileURLToPath h id with
      | Normal p => Normal (normalizeSlash p)
      | Throw e => Throw e
      end
  end.

Definition normalizeid (id : StrOrURL) : string :=
  let id := match id with Str s => s | URLObj href => href end in
  if Regex.test PROTOCOL_OR_FILE_RE id then id
  else if BUILTIN_MODULES_has id then "node:" ++ id
  else "file://" ++ normalizeSlash id.

Definition _tryModuleResolve (id url : string) (conditions : list string)
  : M (option string) :=
  try_catch
    (r <- call (EvModuleResolve id url conditions)
               (moduleResolve h id url conditions);;
     ret (Some r))
    (fun err =>
       if negb (NOT_FOUND_ERRORS_has (err_code err)) then throw err
       else ret None).

(** The inner loop of the fallback search: the extensions, in order, until
    one resolves. *)
Fixpoint try_extensions (id pre : string) (exts : list string)
  (url : string) (conditions : list string) : M (option string) :=
  match exts with
  | [] => ret None
  | ext :: exts' =>
      resolved <- _tryModuleResolve (id ++ pre ++ ext) url conditions;;
      match resolved with
      | Some r => ret (Some r)
      | None => try_extensions id pre exts' url conditions
      end
  end.

(** The outer loop: the prefixes, in order, until one resolves. *)
Fixpoint try_prefixes (id : string) (prefixes exts : list string)
  (url : string) (conditions : list string) : M (option string) :=
  match prefixes with
  | [] => ret None
  | pre :: prefixes' =>
      resolved <- try_extensions id pre exts url conditions;;
      match resolved with
      | Some r => ret (Some r)
      | None => try_prefixes id prefixes' exts url conditions
      end
  end.

Definition module_not_found (id url : string) : JsError :=
  set_code (new_Error ("Cannot find module " ++ id ++ " imported from " ++ url))
           (Some "ERR_MODULE_NOT_FOUND").

Definition _resolve (id : string) (opts : option Opts) : M string :=
  let opts := match opts with Some o => o | None => no_opts end in
  (* Skip if already has a protocol *)
  if Regex.test PROTOCOL_RE id then ret id
  (* Skip builtins *)
  else if BUILTIN_MODULES_has id then ret ("node:" ++ id)
  else
    (* Defaults *)
    let conditionsSet :=
      match conditions opts with
      | Some c => Str.unique c
      | None => DEFAULT_CONDITIONS_SET
      end in
    let url :=
      match url opts with
      | Some (String c u) => normalizeid (Str (String c u))
      | _ => DEFAULT_URL
      end in
    (* Try simple resolve *)
    resolved <- _tryModuleResolve id url conditionsSet;;
    (* Try other extensions if not found *)
    resolved <-
      match resolved with
      | Some r => ret (Some r)
      | None =>
          try_prefixes id [""; "/index"]
            (match extensions opts with
             | Some e => e
             | None => DEFAULT_EXTENSIONS
             end) url conditionsSet
      end;;
    match resolved with
    | None =>
        (* Throw error if not found *)
        throw (module_not_found id url)
    | Some r =>
        (* Resolve realPath and normalize slash *)
        path <- lift (fileURLToPath (URLObj r));;
        realPath <- call (EvRealpath path) (realpathSync h path);;
        lift (pathToFileURL h realPath)
    end.

Definition resolveSync (id : string) (opts : option Opts) : M string :=
  _resolve id opts.

Definition Promise_resolve {A} (a : A) : Promise A := Fulfilled a.

(** [p.catch(handler)] with a handler that returns a promise *)
Definition promise_catch {A} (p : Promise A)
  (handler : JsError -> M (Promise A)) : M (Promise A) :=
  match p with
  | Fulfilled _ => ret p
  | Rejected e => handler e
  end.

Definition _perr {A} (_err : JsError) : M (Promise A) :=
  let err := new_Error (err_toString _err) in
  let err := set_code err (err_code _err) in
  ret (Rejected err).

Definition _pcall {A} (fn : M A) : M (Promise A) :=
  try_catch
    (v <- fn;; promise_catch (Promise_resolve v) (fun err => _perr err))
    (fun err => _perr err).

Definition resolve (id : string) (opts : option Opts) : M (Promise string) :=
  _pcall (resolveSync id opts).

Definition resolvePathSync (id : string) (opts : option Opts) : M string :=
  r <- resolveSync id opts;;
  lift (fileURLToPath (Str r)).

Definition resolvePath (id : string) (opts : option Opts)
  : M (Promise string) :=
  _pcall (resolvePathSync id opts).

(** *** Evaluate *)

Definition quote_chars : string := String "'"%char (String "034"%char "").

Definition QUOTE : Regex.regex := Regex.RChar (Regex.COneOf quote_chars).

(** The capture group of a specifier: one or more code units, none of
    them a quote. *)
Definition SPECIFIER : Regex.regex :=
  Regex.RGroup (Regex.RPlus (Regex.RChar (Regex.CNoneOf quote_chars))).

Definition seq (rs : list Regex.regex) : Regex.regex :=
  fold_right Regex.RSeq Regex.REmpty rs.

Definition ANY : Regex.regex := Regex.RStar (Regex.RChar Regex.CDot).
Definition SPACES : Regex.regex := Regex.RStar (Regex.RChar Regex.CSpace).

(** The four alternatives of [ESM_IMPORT_RE], each a lookbehind, the
    specifier and a lookahead. *)
Definition ESM_IMPORT_RE : Regex.regex :=
  Regex.RAlt
    (seq [Regex.RLookbehind (seq [Regex.lit "import "; ANY; Regex.lit " from "; QUOTE]);
          SPECIFIER; Regex.RLookahead QUOTE])
    (Regex.RAlt
       (seq [Regex.RLookbehind (seq [Regex.lit "export "; ANY; Regex.lit " from "; QUOTE]);
             SPECIFIER; Regex.RLookahead QUOTE])
       (Regex.RAlt
          (seq [Regex.RLookbehind (seq [Regex.lit "import"; SPACES; QUOTE]);
                SPECIFIER; Regex.RLookahead QUOTE])
          (seq [Regex.RLookbehind
                  (seq [Regex.lit "import"; SPACES; Regex.lit "("; QUOTE]);
                SPECIFIER;
                Regex.RLookahead (seq [QUOTE; Regex.lit ")"])]))).

(** [/import\.meta\.url/] *)
Definition IMPORT_META_URL_RE : Regex.regex := Regex.lit "import.meta.url".

Definition toDataURL (code : string) : string :=
  "data:text/javascript;base64," ++ Base64.encode code.

Definition loadURL (url : string) : M (Promise string) :=
  async (path <- lift (fileURLToPath (Str url));;
         call (EvReadFile path) (readFile h path)).

(** [new RegExp(source, 'g')] *)
Definition new_RegExp (source : string) : M Regex.regex :=
  match Regex.regexp_new source with
  | Regex.Parsed re => ret re
  | Regex.SyntaxError msg =>
      throw {| err_name := "SyntaxError";
               err_message :=
                 "Invalid regular expression: /" ++ source ++ "/g: " ++ msg;
               err_code := None;
               err_stack :=
                 "SyntaxError: Invalid regular expression: /" ++ source
                 ++ "/g: " ++ msg ++ stack_frames h;
               err_toString :=
                 "SyntaxError: Invalid regular expression: /" ++ source
                 ++ "/g: " ++ msg |}
  | Regex.Unsupported => ([], Abort OutOfFragment)
  end.

Fixpoint map_M {A B} (f : A -> M B) (l : list A) : M (list B) :=
  match l with
  | [] => ret []
  | a :: l' => b <- f a;; bs <- map_M f l';; ret (b :: bs)
  end.

(** The first promise of the list that is rejected. *)
Fixpoint first_rejection {A} (l : list (Promise A)) : option JsError :=
  match l with
  | [] => None
  | Rejected e :: _ => Some e
  | Fulfilled _ :: l' => first_rejection l'
  end.

Fixpoint fulfilled_values {A} (l : list (Promise A)) : list A :=
  match l with
  | [] => []
  | Fulfilled a :: l' => a :: fulfilled_values l'
  | Rejected _ :: l' => fulfilled_values l'
  end.

(** [resolved.get(id)] *)
Fixpoint Map_get (resolved : list (string * string)) (id : string)
  : option string :=
  match resolved with
  | [] => None
  | (k, v) :: rest => if String.eqb k id then Some v else Map_get rest id
  end.

(** What the replacer [id => resolved.get(id)] contributes: the value, or
    the text of [undefined]. *)
Definition replacer (resolved : list (string * string)) (id : string)
  : string :=
  match Map_get resolved id with
  | Some u => u
  | None => "undefined"
  end.

(** [uniqueImports.map(i => `(${i})`).join('|')] *)
Definition imports_pattern (uniqueImports : list string) : string :=
  Str.join "|" (map (fun i => "(" ++ i ++ ")") uniqueImports).

(** [obj.url] on a possibly undefined options object *)
Definition get_url (opts : option Opts) : M (option string) :=
  match opts with
  | Some o => ret (url o)
  | None =>
      throw (new_TypeError
               "Cannot read properties of undefined (reading 'url')")
  end.

Section Rewriter.

(** [transformModule], as seen from [resolveImports]. *)
Variable transformModule_rec : string -> option Opts -> M (Promise string).

(** The callback of [uniqueImports.map] after its first [await]. *)
Definition resolve_import (started : string * Promise string)
  : M (Promise (string * string)) :=
  async
    (url <- await (snd started);;
     url <-
       (if Str.endsWith url ".json" then
          code <- (p <- loadURL url;; await p);;
          t <- (p <- transformModule_rec code
                      (Some {| url := Some url; conditions := None;
                               extensions := None |});;
                await p);;
          ret (toDataURL t)
        else ret url);;
     ret (fst started, url)).

(** The callbacks run up to their first [await] in the order of the
    array, so all the resolutions are started first; a rejected
    resolution is the first failure [Promise.all] sees.  The loads are
    taken to complete in the order of the array. *)
Definition resolveImports (code : string) (opts : option Opts)
  : M (Promise string) :=
  async
    (let imports := Regex.matchAll0 ESM_IMPORT_RE code in
     match imports with
     | [] => ret code
     | _ :: _ =>
         let uniqueImports := Str.unique imports in
         started <- map_M (fun id => p <- resolve id opts;; ret (id, p))
                          uniqueImports;;
         settled <- map_M resolve_import started;;
         match first_rejection (map snd started) with
         | Some e => throw e
         | None =>
             match first_rejection settled with
             | Some e => throw e
             | None =>
                 let resolved := fulfilled_values settled in
                 re <- new_RegExp (imports_pattern uniqueImports);;
                 ret (Regex.replace_fn re code (replacer resolved))
             end
         end
     end).

End Rewriter.

Fixpoint transformModule_fuel (fuel : nat) (code : string)
  (opts : option Opts) : M (Promise string) :=
  match fuel with
  | 0 => ([], Abort OutOfFuel)
  | S fuel' =>
      async
        (u <- get_url opts;;
         (* Convert JSON to module *)
         if match u with
            | Some (String c u') => Str.endsWith (String c u') ".json"
            | _ => false
            end
         then ret ("export default " ++ code)
         else
           (* Resolve relative imports *)
           code <- (p <- resolveImports (transformModule_fuel fuel')
                                        code opts;;
                    await p);;
           (* Rewrite import.meta.url *)
           u <- get_url opts;;
           match u with
           | Some (String c u') =>
               ret (Regex.replace_str IMPORT_META_URL_RE code
                      ("'" ++ String c u' ++ "'"))
           | _ => ret code
           end)
  end.

(** [transformModule] calls itself, through [resolveImports], only on a
    JSON location, where it returns at once: two levels are all it ever
    uses ([transformModule_fuel_enough]). *)
Definition transformModule (code : string) (opts : option Opts)
  : M (Promise string) :=
  transformModule_fuel 2 code opts.

Definition evalModule (code : string) (opts : option Opts)
  : M (Promise Namespace) :=
  let opts := match opts with Some o => o | None => no_opts end in
  async
    (transformed <- (p <- transformModule code (Some opts);; await p);;
     let dataURL := toDataURL transformed in
     try_catch
       (call (EvImport dataURL) (dynamic_import h dataURL))
       (fun err =>
          re <- new_RegExp dataURL;;
          throw (set_stack err
                   (Regex.replace_str re (err_stack err)
                      (match url opts with
                       | Some (String c u) => String c u
                       | _ => "_mlly_eval_.mjs"
                       end))))).

Definition loadModule (id : string) (opts : option Opts)
  : M (Promise Namespace) :=
  let opts := match opts with Some o => o | None => no_opts end in
  async
    (u <- (p <- resolve id (Some opts);; await p);;
     code <- (p <- loadURL u;; await p);;
     p <- evalModule code
            (Some {| url := Some u; conditions := conditions opts;
                     extensions := extensions opts |});;
     await p).

End Mlly.

(** ** What the host answers to one resolution attempt *)

Inductive attempt : Type :=
| Resolved (href : string)
| SoftMiss
| Hard (e : JsError).

Definition attempt_of (h : Host) (url : string) (conditions : list string)
  (id : string) : attempt :=
  match moduleResolve h id url conditions with
  | Normal u => Resolved u
  | Throw e => if NOT_FOUND_ERRORS_has (err_code e) then SoftMiss else Hard e
  end.

Definition soft_miss (h : Host) (url : string) (conditions : list string)
  (id : string) : bool :=
  match attempt_of h url conditions id with
  | SoftMiss => true
  | _ => false
  end.

(** The base location and the conditions a call resolves against. *)
Definition base_of (h : Host) (opts : option Opts) : string :=
  match opts with
  | Some {| url := Some (String c u) |} => normalizeid h (Str (String c u))
  | _ => DEFAULT_URL h
  end.

Definition conditions_of (opts : option Opts) : list string :=
  match opts with
  | Some {| conditions := Some c |} => Str.unique c
  | _ => DEFAULT_CONDITIONS_SET
  end.

Definition extensions_of (opts : option Opts) : list string :=
  match opts with
  | Some {| extensions := Some e |} => e
  | _ => DEFAULT_EXTENSIONS
  end.

(** The fallback candidates of a specifier, in the order of the two loops. *)
Definition candidates (id : string) (exts : list string) : list string :=
  List.app (map (fun ext => id ++ ext) exts)
           (map (fun ext => id ++ "/index" ++ ext) exts).

(** Walking a list of candidates in order, up to and including the first
    that is not a soft miss. *)
Fixpoint attempted (soft : string -> bool) (cands : list string)
  : list string :=
  match cands with
  | [] => []
  | c :: cands' => c :: (if soft c then attempted soft cands' else [])
  end.

(** The specifiers handed to the host resolution, in order. *)
Definition resolve_calls (l : list Event) : list string :=
  flat_map (fun ev => match ev with
                      | EvModuleResolve id _ _ => [id]
                      | _ => []
                      end) l.

(** How a list of candidates ends when tried in order. *)
Fixpoint search (h : Host) (url : string) (conditions : list string)
  (cands : list string) : Outcome (option string) :=
  match cands with
  | [] => Val None
  | c :: cands' =>
      match attempt_of h url conditions c with
      | Resolved u => Val (Some u)
      | SoftMiss => search h url conditions cands'
      | Hard e => Exn e
      end
  end.

(** The error [_perr] builds around a failure. *)
Definition wrapped (h : Host) (e : JsError) : JsError :=
  set_code (new_Error h (err_toString e)) (err_code e).

(** The distinct specifiers [resolveImports] extracts from a source text. *)
Definition specifiers (code : string) : list string :=
  Str.unique (Regex.matchAll0 ESM_IMPORT_RE code).

(** The substitution pass of [resolveImports] over a source text: the code
    units it keeps and the matches it replaces.  Without imports there is no
    pass and the text is kept. *)
Definition substitution_pass (code : string) : list Regex.segment :=
  match Regex.matchAll0 ESM_IMPORT_RE code with
  | [] => map Regex.Keep (list_ascii_of_string code)
  | _ :: _ =>
      match Regex.regexp_new (imports_pattern (specifiers code)) with
      | Regex.Parsed re => Regex.segments re 0 "" code
      | _ => []
      end
  end.

(** Where the pass replaces, and what text. *)
Definition substitution_hits (code : string) : list (nat * string) :=
  Regex.hits_of (substitution_pass code).

(** Matches in text order that do not overlap: each starts at or after
    [from], and the next at or after its end. *)
Fixpoint disjoint_from (from : nat) (hits : list (nat * string)) : Prop :=
  match hits with
  | [] => True
  | (p, m) :: hits' => from <= p /\ disjoint_from (p + String.length m) hits'
  end.

(** Every backslash of a text turned into a slash. *)
Fixpoint slashes (s : string) : string :=
  match s with
  | EmptyString => ""
  | String c s' =>
      String (if Ascii.eqb c "\"%char then "/"%char else c) (slashes s')
  end.

(** ** Notions the properties are stated with *)

(** The event of one host resolution. *)
Definition ev (url : string) (conds : list string) (id : string) : Event :=
  EvModuleResolve id url conds.

(** Whether a pattern matches at the current index. *)
Definition matches_here (r : Regex.regex) (b a : string) : bool :=
  match Regex.match_here r (b, a) with
  | Some _ => true
  | None => false
  end.

(** A computation that stays inside the model. *)
Definition no_abort {A} (m : M A) : Prop := forall w, outcome m <> Abort w.

(** What [_pcall] makes of the end of the synchronous form. *)
Definition settles_as {A} (sync : Outcome A) (p : Promise A) : Prop :=
  match sync with
  | Val v => p = Fulfilled v
  | Exn e =>
      exists e',
        p = Rejected e' /\
        err_message e' = err_toString e /\
        (err_toString e = Error_prototype_toString (err_name e) (err_message e) ->
         exists pre, err_message e' = pre ++ err_message e) /\
        err_code e' = err_code e
  | Abort _ => False
  end.

(** The first specifier, in the order of the alternation, that the text
    starts with. *)
Definition first_prefix (ids : list string) (a : string) : option string :=
  find (fun s => String.prefix s a) ids.

(** An entry of the map: the specifier and the location resolved for it
    (for a JSON location, the data URL made of its text). *)
Definition entry_ok (h : Host) (opts : option Opts) (kv : string * string)
  : Prop :=
  exists t u,
    resolve h (fst kv) opts = (t, Val (Fulfilled u)) /\
    (Str.endsWith u ".json" = false -> snd kv = u).

(** The length of the whole text of a state. *)
Definition total (st : Regex.state) : nat :=
  String.length (fst st) + String.length (snd st).

(** A match keeps the text and moves the index in its direction only. *)
Definition moved (d : Regex.direction) (st st' : Regex.state) : Prop :=
  total st' = total st /\
  match d with
  | Regex.Forward => Regex.index_of st <= Regex.index_of st'
  | Regex.Backward => Regex.index_of st' <= Regex.index_of st
  end.

(** What is left of the text in the direction of the match. *)
Definition ahead (d : Regex.direction) (st : Regex.state) : nat :=
  match d with
  | Regex.Forward => String.length (snd st)
  | Regex.Backward => String.length (fst st)
  end.

(** The pattern a list of plain specifiers parses to. *)

Module PlainPattern.

Import Regex.

(** The frame after the pattern characters of [s]. *)
Fixpoint push_chars (f : frame) (s : string) : frame :=
  match s with
  | EmptyString => f
  | String c s' => push_chars (push_atom f (RChar (CLit c))) s'
  end.

Fixpoint lit_onto (s : string) (acc : regex) : regex :=
  match s with
  | EmptyString => acc
  | String c s' => RSeq (RChar (CLit c)) (lit_onto s' acc)
  end.

Fixpoint rev_lits (s : string) (ts : list regex) : list regex :=
  match s with
  | EmptyString => ts
  | String c s' => rev_lits s' (RChar (CLit c) :: ts)
  end.

(** The alternative the pattern of one specifier parses to. *)
Definition grp (s : string) : regex := RSeq (RGroup (lit s)) REmpty.

Definition alts_regex (l : list regex) : regex :=
  match l with
  | [] => REmpty
  | r :: rest => alt_of r rest
  end.

End PlainPattern.

(** The whole text of a state of the matcher. *)
Definition whole (st : Regex.state) : string :=
  Str.rev_onto (fst st) (snd st).

(** Replacing a text by another wherever it occurs, from left to right,
    an occurrence that starts inside a replaced one being passed over;
    [skip] code units are still to be passed over. *)
Fixpoint replace_all (needle by_text : string) (skip : nat) (text : string)
  : string :=
  match text with
  | EmptyString => ""
  | String c text' =>
      match skip with
      | S k => replace_all needle by_text k text'
      | 0 =>
          if String.prefix needle text
          then by_text ++ replace_all needle by_text
                            (String.length needle - 1) text'
          else String c (replace_all needle by_text 0 text')
      end
  end.

(** Every code unit of a text passes a test. *)
Fixpoint every (p : ascii -> bool) (s : string) : bool :=
  match s with
  | EmptyString => true
  | String c s' => p c && every p s'
  end.

(** A base64 digit is a pattern character, or it is [+]. *)
Definition digit_or_plus (c : ascii) : bool :=
  Regex.plain_char c || Ascii.eqb c "+".

(** The units handed to the host's [import], in order. *)
Definition import_calls (l : list Event) : list string :=
  flat_map (fun ev => match ev with
                      | EvImport u => [u]
                      | _ => []
                      end) l.

(** The promise [resolve] returns for a specifier, from the end of the
    synchronous form. *)
Definition promised (h : Host) (sync : Outcome string) (p : Promise string)
  : Prop :=
  match sync with
  | Val v => p = Fulfilled v
  | Exn e => p = Rejected (wrapped h e)
  | Abort _ => False
  end.

(** ** A host to run the library on

    A project directory [/proj] on a POSIX file system: [answers] is what
    the resolution algorithm says of a specifier, [importer] what the
    import of a data URL gives. *)

Module Fixture.

Definition not_found (id : string) : JsError :=
  {| err_name := "Error";
     err_message := "Cannot find module " ++ id;
     err_code := Some "ERR_MODULE_NOT_FOUND";
     err_stack := "Error [ERR_MODULE_NOT_FOUND]: Cannot find module " ++ id;
     err_toString :=
       "Error [ERR_MODULE_NOT_FOUND]: Cannot find module " ++ id |}.

Definition access_denied (id : string) : JsError :=
  {| err_name := "Error";
     err_message := "EACCES: permission denied, open " ++ id;
     err_code := Some "EACCES";
     err_stack := "Error: EACCES: permission denied, open " ++ id;
     err_toString := "Error: EACCES: permission denied, open " ++ id |}.

(** A failure of the resolution algorithm outside the not-found class, as
    import-meta-resolve prints it. *)
Definition invalid_specifier (id : string) : JsError :=
  {| err_name := "TypeError";
     err_message := "Invalid module " ++ id ++ " is not a valid package name";
     err_code := Some "ERR_INVALID_MODULE_SPECIFIER";
     err_stack :=
       "TypeError [ERR_INVALID_MODULE_SPECIFIER]: Invalid module " ++ id
       ++ " is not a valid package name";
     err_toString :=
       "TypeError [ERR_INVALID_MODULE_SPECIFIER]: Invalid module " ++ id
       ++ " is not a valid package name" |}.

Definition href_of (id : StrOrURL) : string :=
  match id with
  | Str s => s
  | URLObj href => href
  end.

Definition host (answers : string -> completion string)
  (importer : string -> completion Namespace) : Host :=
  {| builtinModules := ["fs"; "path"; "url"; "module"; "node:test"];
     cwd_url := "file:///proj";
     moduleResolve := fun id _ _ => answers id;
     realpathSync := fun path => Normal path;
     url_fileURLToPath := fun id => Normal (Str.drop 7 (href_of id));
     pathToFileURL := fun path => Normal ("file://" ++ path);
     readFile := fun _ => Normal "{}";
     dynamic_import := importer;
     stack_frames := "" |}.

(** Only the relative specifiers listed in [files] resolve. *)
Definition files (present : list string) (id : string) : completion string :=
  if existsb (String.eqb id) present
  then Normal ("file:///proj" ++ Str.drop 1 id)
  else Throw (not_found id).

(** The specifiers of a table resolve to what it says. *)
Fixpoint packages (table : list (string * string)) (id : string)
  : completion string :=
  match table with
  | [] => Throw (not_found id)
  | (name, href) :: table' =>
      if String.eqb name id then Normal href else packages table' id
  end.

(** The files of the directory resolve, and [bad] is refused as a
    specifier. *)
Definition files_refusing (present : list string) (bad : string) (id : string)
  : completion string :=
  if String.eqb id bad then Throw (invalid_specifier id)
  else files present id.

(** The files of the directory resolve, and [locked] cannot be read. *)
Definition files_but (present : list string) (locked : string) (id : string)
  : completion string :=
  if String.eqb id locked then Throw (access_denied id)
  else files present id.

Definition empty_module (_ : string) : completion Namespace :=
  Normal (ModuleNamespace []).

(** An import that fails, with the location of the unit in the trace. *)
Definition failing_module (u : string) : completion Namespace :=
  Throw {| err_name := "Error";
           err_message := "boom";
           err_code := None;
           err_stack := "Error: boom" ++ String "010"%char ""
                        ++ "    at " ++ u ++ ":1:12";
           err_toString := "Error: boom" |}.

Definition project (present : list string) : Host :=
  host (files present) empty_module.

End Fixture.

Unset Implicit Arguments.

(** * Properties *)

(** ** Strings *)

Lemma prefix_nil (s : string) : String.prefix "" s = true.
Proof. destruct s; reflexivity. Qed.

Lemma prefix_cons (c d : ascii) (s a : string) :
  String.prefix (String c s) (String d a)
  = Ascii.eqb d c && String.prefix s a.
Proof.
  simpl. destruct (ascii_dec c d) as [->|Hne].
  - now rewrite Ascii.eqb_refl.
  - destruct (Ascii.eqb_spec d c); [congruence | reflexivity].
Qed.

Lemma prefix_app (s t a : string) :
  String.prefix (s ++ t) a
  = String.prefix s a && String.prefix t (Str.drop (String.length s) a).
Proof.
  revert a; induction s as [|c s IH]; intros a.
  - simpl. now rewrite prefix_nil.
  - destruct a as [|d a].
    + reflexivity.
    + change (String c s ++ t) with (String c (s ++ t)).
      rewrite !prefix_cons, IH. simpl. now rewrite andb_assoc.
Qed.

Lemma prefix_take (s a : string) :
  String.prefix s a = true -> Str.take (String.length s) a = s.
Proof.
  revert a; induction s as [|c s IH]; intros [|d a] H; try reflexivity.
  - discriminate.
  - rewrite prefix_cons in H. apply andb_prop in H as [Hc Hs].
    apply Ascii.eqb_eq in Hc. subst d. simpl. now rewrite IH.
Qed.

Lemma startsWith_includes (s p : string) :
  Str.startsWith s p = true -> Str.includes s p = true.
Proof.
  unfold Str.startsWith. intros H.
  destruct s; cbn [Str.includes]; now rewrite H.
Qed.

Lemma length_rev_onto (s b : string) :
  String.length (Str.rev_onto s b) = String.length s + String.length b.
Proof.
  revert b; induction s as [|c s IH]; intros b; simpl.
  - reflexivity.
  - rewrite IH. simpl. lia.
Qed.

(** ** The matcher on literal patterns *)

Lemma rmatch_lit (s : string) (fuel : nat) (b a : string) :
  Regex.rmatch Regex.Forward (Regex.lit s) fuel (b, a)
  = if String.prefix s a
    then [(Str.rev_onto s b, Str.drop (String.length s) a)]
    else [].
Proof.
  revert b a; induction s as [|c s IH]; intros b a.
  - simpl. now rewrite prefix_nil.
  - destruct a as [|d a].
    + reflexivity.
    + rewrite prefix_cons. simpl.
      destruct (Ascii.eqb d c) eqn:E; simpl.
      * rewrite IH. apply Ascii.eqb_eq in E. subst d.
        destruct (String.prefix s a); reflexivity.
      * reflexivity.
Qed.

Lemma test_from_unfold (r : Regex.regex) (b a : string) :
  Regex.test_from r b a
  = matches_here r b a ||
    match a with
    | EmptyString => false
    | String c a' => Regex.test_from r (String c b) a'
    end.
Proof.
  unfold matches_here. destruct a; simpl;
    destruct (Regex.match_here r _); reflexivity.
Qed.

(** A pattern that is a group of alternatives followed by a literal matches
    where one of the alternatives followed by the literal is a prefix. *)
Lemma matches_here_alt_then_lit (alt : Regex.regex) (t : string) (b a : string) :
  matches_here (Regex.RSeq (Regex.RGroup alt) (Regex.lit t)) b a
  = existsb (fun st => String.prefix t (snd st))
      (Regex.rmatch Regex.Forward alt (Regex.fuel_for (b, a)) (b, a)).
Proof.
  unfold matches_here, Regex.match_here. simpl Regex.rmatch.
  generalize (Regex.rmatch Regex.Forward alt (Regex.fuel_for (b, a)) (b, a)).
  intros l. induction l as [|[b' a'] l IH]; simpl.
  - reflexivity.
  - rewrite rmatch_lit. destruct (String.prefix t a'); simpl.
    + reflexivity.
    + exact IH.
Qed.

Lemma existsb_lit (s t : string) (fuel : nat) (b a : string) :
  existsb (fun st => String.prefix t (snd st))
    (Regex.rmatch Regex.Forward (Regex.lit s) fuel (b, a))
  = String.prefix (s ++ t) a.
Proof.
  rewrite rmatch_lit, prefix_app.
  destruct (String.prefix s a); simpl; [now rewrite orb_false_r | reflexivity].
Qed.

Lemma PROTOCOL_RE_here (b a : string) :
  matches_here PROTOCOL_RE b a
  = String.prefix "node:" a || String.prefix "data:" a
    || String.prefix "http:" a || String.prefix "https:" a.
Proof.
  unfold PROTOCOL_RE. rewrite matches_here_alt_then_lit.
  cbn [Regex.rmatch]. rewrite !existsb_app, !existsb_lit.
  now rewrite !orb_assoc.
Qed.

Lemma PROTOCOL_OR_FILE_RE_here (b a : string) :
  matches_here PROTOCOL_OR_FILE_RE b a
  = String.prefix "node:" a || String.prefix "data:" a
    || String.prefix "http:" a || String.prefix "https:" a
    || String.prefix "file:" a.
Proof.
  unfold PROTOCOL_OR_FILE_RE. rewrite matches_here_alt_then_lit.
  cbn [Regex.rmatch]. rewrite !existsb_app, !existsb_lit.
  now rewrite !orb_assoc.
Qed.

Lemma PROTOCOL_RE_test_from (b id : string) :
  Regex.test_from PROTOCOL_RE b id
  = Str.includes id "node:" || Str.includes id "data:"
    || Str.includes id "http:" || Str.includes id "https:".
Proof.
  revert b. induction id as [|c id IH]; intros b;
    rewrite test_from_unfold, PROTOCOL_RE_here.
  - reflexivity.
  - rewrite IH. cbn [Str.includes].
    repeat match goal with |- context [String.prefix ?p ?s] =>
      destruct (String.prefix p s) end;
    repeat match goal with |- context [Str.includes ?s ?p] =>
      destruct (Str.includes s p) end; reflexivity.
Qed.

Lemma PROTOCOL_OR_FILE_RE_test_from (b id : string) :
  Regex.test_from PROTOCOL_OR_FILE_RE b id
  = Str.includes id "node:" || Str.includes id "data:"
    || Str.includes id "http:" || Str.includes id "https:"
    || Str.includes id "file:".
Proof.
  revert b. induction id as [|c id IH]; intros b;
    rewrite test_from_unfold, PROTOCOL_OR_FILE_RE_here.
  - reflexivity.
  - rewrite IH. cbn [Str.includes].
    repeat match goal with |- context [String.prefix ?p ?s] =>
      destruct (String.prefix p s) end;
    repeat match goal with |- context [Str.includes ?s ?p] =>
      destruct (Str.includes s p) end; reflexivity.
Qed.

(** The test of [_resolve] is a substring test for the four tokens. *)
Lemma PROTOCOL_RE_test (id : string) :
  Regex.test PROTOCOL_RE id
  = Str.includes id "node:" || Str.includes id "data:"
    || Str.includes id "http:" || Str.includes id "https:".
Proof. apply PROTOCOL_RE_test_from. Qed.

Lemma PROTOCOL_OR_FILE_RE_test (id : string) :
  Regex.test PROTOCOL_OR_FILE_RE id
  = Str.includes id "node:" || Str.includes id "data:"
    || Str.includes id "http:" || Str.includes id "https:"
    || Str.includes id "file:".
Proof. apply PROTOCOL_OR_FILE_RE_test_from. Qed.

(** ** The bound on the iterations of a star *)

Section MatcherFuel.

Import Regex.

Lemma flat_map_ext_within {A B} (f g : A -> list B) (l : list A) :
  (forall a, In a l -> f a = g a) -> flat_map f l = flat_map g l.
Proof.
  induction l as [|a l IH]; intros H; simpl; [reflexivity|].
  rewrite (H a (or_introl eq_refl)), IH; [reflexivity|].
  intros x Hx. apply H. now right.
Qed.

Lemma moved_refl (d : direction) (st : state) : moved d st st.
Proof. split; [reflexivity | destruct d; lia]. Qed.

Lemma moved_trans (d : direction) (st1 st2 st3 : state) :
  moved d st1 st2 -> moved d st2 st3 -> moved d st1 st3.
Proof. intros [H1 H2] [H3 H4]. split; [congruence | destruct d; lia]. Qed.

Lemma star_loop_moved (d : direction) (step : state -> list state) :
  (forall st st', In st' (step st) -> moved d st st') ->
  forall n st st', In st' (star_loop step n st) -> moved d st st'.
Proof.
  intros Hstep. induction n as [|k IH]; intros st st' Hin.
  - destruct Hin as [<-|[]]. apply moved_refl.
  - cbn [star_loop] in Hin. apply in_app_or in Hin as [Hin|[<-|[]]].
    + apply in_flat_map in Hin as [st1 [H1 Hin]].
      destruct (Nat.eqb (index_of st1) (index_of st)); [contradiction|].
      exact (moved_trans d _ _ _ (Hstep _ _ H1) (IH _ _ Hin)).
    + apply moved_refl.
Qed.

Lemma rmatch_moved (r : regex) :
  forall d fuel st st', In st' (rmatch d r fuel st) -> moved d st st'.
Proof.
  induction r as [|cs|r1 IH1 r2 IH2|r1 IH1 r2 IH2|r1 IH1|r1 IH1|r1 IH1|r1 IH1];
    intros d fuel st st' Hin; cbn [rmatch] in Hin.
  - destruct Hin as [<-|[]]. apply moved_refl.
  - destruct st as [b a]. unfold step_char in Hin. cbn [fst snd] in Hin.
    destruct d.
    + destruct a as [|c a]; [contradiction|].
      destruct (cset_mem cs c); [|contradiction].
      destruct Hin as [<-|[]]. unfold moved, total, index_of. simpl. lia.
    + destruct b as [|c b]; [contradiction|].
      destruct (cset_mem cs c); [|contradiction].
      destruct Hin as [<-|[]]. unfold moved, total, index_of. simpl. lia.
  - destruct d; apply in_flat_map in Hin as [st1 [H1 H2]].
    + exact (moved_trans _ _ _ _ (IH1 _ _ _ _ H1) (IH2 _ _ _ _ H2)).
    + exact (moved_trans _ _ _ _ (IH2 _ _ _ _ H1) (IH1 _ _ _ _ H2)).
  - apply in_app_or in Hin as [Hin|Hin]; eauto.
  - exact (star_loop_moved d _ (IH1 d fuel) _ _ _ Hin).
  - eauto.
  - destruct (rmatch Forward r1 fuel st); [contradiction|].
    destruct Hin as [<-|[]]. apply moved_refl.
  - destruct (rmatch Backward r1 fuel st); [contradiction|].
    destruct Hin as [<-|[]]. apply moved_refl.
Qed.

Lemma star_loop_fuel (d : direction) (step step' : state -> list state)
  (bound : nat) :
  (forall st st', In st' (step st) -> moved d st st') ->
  (forall st, total st = bound -> step st = step' st) ->
  forall n n' st,
    total st = bound -> ahead d st < n -> ahead d st < n' ->
    star_loop step n st = star_loop step' n' st.
Proof.
  intros Hmoved Hstep. induction n as [|k IH]; intros n' st Ht Hn Hn'.
  - lia.
  - destruct n' as [|k']; [lia|]. cbn [star_loop].
    rewrite <- (Hstep st Ht). f_equal.
    apply flat_map_ext_within. intros st1 H1.
    destruct (Nat.eqb_spec (index_of st1) (index_of st)) as [|Hne];
      [reflexivity|].
    destruct (Hmoved _ _ H1) as [Htot Hdir].
    apply IH; [congruence | |];
      unfold ahead, total, index_of in *; destruct d; lia.
Qed.

(** The matches do not depend on the bound, once it exceeds the length of
    the text. *)
Lemma rmatch_fuel (r : regex) :
  forall d n n' st,
    total st < n -> total st < n' -> rmatch d r n st = rmatch d r n' st.
Proof.
  induction r as [|cs|r1 IH1 r2 IH2|r1 IH1 r2 IH2|r1 IH1|r1 IH1|r1 IH1|r1 IH1];
    intros d n n' st Hn Hn'; cbn [rmatch]; try reflexivity.
  - destruct d.
    + rewrite (IH1 Forward n n' st Hn Hn'). apply flat_map_ext_within.
      intros st1 H1. destruct (rmatch_moved _ _ _ _ _ H1) as [Ht _].
      apply IH2; lia.
    + rewrite (IH2 Backward n n' st Hn Hn'). apply flat_map_ext_within.
      intros st1 H1. destruct (rmatch_moved _ _ _ _ _ H1) as [Ht _].
      apply IH1; lia.
  - now rewrite (IH1 d n n' st Hn Hn'), (IH2 d n n' st Hn Hn').
  - apply (star_loop_fuel d _ _ (total st)).
    + intros st0 st1. apply rmatch_moved.
    + intros st0 Ht. apply IH1; lia.
    + reflexivity.
    + unfold ahead, total in *. destruct d; lia.
    + unfold ahead, total in *. destruct d; lia.
  - now apply IH1.
  - now rewrite (IH1 Forward n n' st Hn Hn').
  - now rewrite (IH1 Backward n n' st Hn Hn').
Qed.

(** [match_here] runs the matcher with a bound that is enough: any larger
    bound gives the same matches. *)
Lemma rmatch_fuel_enough (r : regex) (st : state) (n : nat) :
  fuel_for st <= n ->
  rmatch Forward r n st = rmatch Forward r (fuel_for st) st.
Proof.
  intros H. apply rmatch_fuel; unfold fuel_for, total in *; lia.
Qed.

End MatcherFuel.

(** ** The effect monad *)

Lemma no_abort_ret {A} (a : A) : no_abort (ret a).
Proof. intros w; discriminate. Qed.

Lemma no_abort_throw {A} (e : JsError) : no_abort (@throw A e).
Proof. intros w; discriminate. Qed.

Lemma no_abort_call {A} (ev : Event) (c : completion A) : no_abort (call ev c).
Proof. intros w; destruct c; discriminate. Qed.

Lemma no_abort_lift {A} (c : completion A) : no_abort (lift c).
Proof. intros w; destruct c; discriminate. Qed.

Lemma no_abort_bind {A B} (m : M A) (f : A -> M B) :
  no_abort m -> (forall a, no_abort (f a)) -> no_abort (bind m f).
Proof.
  intros Hm Hf w. destruct m as [l [a|e|w']]; simpl.
  - specialize (Hf a w). destruct (f a) as [l' o]. exact Hf.
  - discriminate.
  - exfalso. exact (Hm w' eq_refl).
Qed.

Create HintDb no_abort.

#[local] Hint Resolve no_abort_ret no_abort_throw no_abort_call no_abort_lift
  : no_abort.

Lemma trace_bind {A B} (m : M A) (f : A -> M B) :
  trace (bind m f)
  = (trace m ++ match outcome m with
                | Val a => trace (f a)
                | _ => []
                end)%list.
Proof.
  destruct m as [l [a|e|w]]; simpl.
  - destruct (f a); reflexivity.
  - now rewrite app_nil_r.
  - now rewrite app_nil_r.
Qed.

Lemma resolve_calls_app (l1 l2 : list Event) :
  resolve_calls (l1 ++ l2) = (resolve_calls l1 ++ resolve_calls l2)%list.
Proof. unfold resolve_calls. apply flat_map_app. Qed.

(** ** The resolver *)

Section Resolver.

Variable h : Host.

Lemma tryModuleResolve_eq (id url : string) (conds : list string) :
  _tryModuleResolve h id url conds
  = ([ev url conds id],
     match attempt_of h url conds id with
     | Resolved u => Val (Some u)
     | SoftMiss => Val None
     | Hard e => Exn e
     end).
Proof.
  unfold _tryModuleResolve, attempt_of, call, ev.
  destruct (moduleResolve h id url conds) as [u|e]; simpl.
  - reflexivity.
  - destruct (NOT_FOUND_ERRORS_has (err_code e)); reflexivity.
Qed.

Lemma try_extensions_eq (id pre : string) (exts : list string)
  (url : string) (conds : list string) :
  try_extensions h id pre exts url conds
  = (map (ev url conds)
       (match search h url conds (map (fun ext => id ++ pre ++ ext) exts) with
        | Val None => map (fun ext => id ++ pre ++ ext) exts
        | _ => attempted (soft_miss h url conds)
                 (map (fun ext => id ++ pre ++ ext) exts)
        end),
     search h url conds (map (fun ext => id ++ pre ++ ext) exts)).
Proof.
  induction exts as [|ext exts IH]; simpl.
  - reflexivity.
  - rewrite tryModuleResolve_eq. unfold soft_miss.
    destruct (attempt_of h url conds (id ++ pre ++ ext)) as [u| |e]; simpl.
    + reflexivity.
    + rewrite IH. simpl.
      destruct (search h url conds (map (fun ext0 => id ++ pre ++ ext0) exts))
        as [[r|]|e|w]; reflexivity.
    + reflexivity.
Qed.

Lemma search_none_attempted (url : string) (conds : list string)
  (cands : list string) :
  search h url conds cands = Val None ->
  forallb (soft_miss h url conds) cands = true.
Proof.
  induction cands as [|c cands IH]; simpl; intros H.
  - reflexivity.
  - unfold soft_miss.
    destruct (attempt_of h url conds c); try discriminate.
    now apply IH.
Qed.

Lemma forallb_soft_search (url : string) (conds : list string)
  (cands : list string) :
  forallb (soft_miss h url conds) cands = true ->
  search h url conds cands = Val None.
Proof.
  induction cands as [|c cands IH]; simpl; intros H.
  - reflexivity.
  - apply andb_prop in H as [Hc Hs]. unfold soft_miss in Hc.
    destruct (attempt_of h url conds c); try discriminate.
    now apply IH.
Qed.

Lemma attempted_all (soft : string -> bool) (cands : list string) :
  forallb soft cands = true -> attempted soft cands = cands.
Proof.
  induction cands as [|c cands IH]; simpl; intros H.
  - reflexivity.
  - apply andb_prop in H as [-> Hs]. now rewrite IH.
Qed.

Lemma attempted_app (soft : string -> bool) (l1 l2 : list string) :
  attempted soft (l1 ++ l2)%list
  = if forallb soft l1 then (l1 ++ attempted soft l2)%list
    else attempted soft l1.
Proof.
  induction l1 as [|c l1 IH]; simpl.
  - reflexivity.
  - rewrite IH. destruct (soft c); simpl.
    + destruct (forallb soft l1); reflexivity.
    + reflexivity.
Qed.

Lemma attempted_stop (soft : string -> bool) (pre post : list string)
  (c : string) :
  forallb soft pre = true -> soft c = false ->
  attempted soft (pre ++ c :: post)%list = (pre ++ [c])%list.
Proof.
  intros Hpre Hc. rewrite attempted_app, Hpre. simpl. now rewrite Hc.
Qed.

Lemma attempted_firstn (soft : string -> bool) (cands : list string) :
  exists k, attempted soft cands = firstn k cands.
Proof.
  induction cands as [|c cands [k IH]]; simpl.
  - exists 0. reflexivity.
  - destruct (soft c).
    + exists (S k). simpl. now rewrite IH.
    + exists 1. reflexivity.
Qed.

(** A candidate is attempted only when all those before it in the order
    were soft misses. *)
Lemma attempted_earlier_failed (soft : string -> bool) (cands : list string)
  (k : nat) :
  k < List.length (attempted soft cands) ->
  forallb soft (firstn k cands) = true.
Proof.
  revert k; induction cands as [|c cands IH]; intros k; simpl.
  - lia.
  - destruct k as [|k]; simpl.
    + reflexivity.
    + destruct (soft c); simpl.
      * intros H. apply IH. lia.
      * lia.
Qed.

Lemma search_app (url : string) (conds : list string) (l1 l2 : list string) :
  search h url conds (l1 ++ l2)%list
  = match search h url conds l1 with
    | Val None => search h url conds l2
    | o => o
    end.
Proof.
  induction l1 as [|c l1 IH]; simpl.
  - reflexivity.
  - destruct (attempt_of h url conds c); try reflexivity. exact IH.
Qed.

Lemma search_stop_hard (url : string) (conds : list string)
  (pre post : list string) (c : string) (e : JsError) :
  forallb (soft_miss h url conds) pre = true ->
  attempt_of h url conds c = Hard e ->
  search h url conds (pre ++ c :: post)%list = Exn e.
Proof.
  intros Hpre Hc. rewrite search_app, (forallb_soft_search _ _ _ Hpre).
  simpl. now rewrite Hc.
Qed.

Lemma search_no_abort (url : string) (conds : list string)
  (cands : list string) (w : abort) :
  search h url conds cands <> Abort w.
Proof.
  induction cands as [|c cands IH]; simpl.
  - discriminate.
  - destruct (attempt_of h url conds c); try discriminate. exact IH.
Qed.

Lemma try_prefixes_eq (id : string) (exts : list string)
  (url : string) (conds : list string) :
  try_prefixes h id [""; "/index"] exts url conds
  = (map (ev url conds)
       (attempted (soft_miss h url conds) (candidates id exts)),
     search h url conds (candidates id exts)).
Proof.
  unfold candidates. simpl try_prefixes.
  rewrite !try_extensions_eq.
  change (fun ext => id ++ "" ++ ext) with (fun ext => id ++ ext).
  rewrite search_app, attempted_app.
  set (direct := map (fun ext => id ++ ext) exts).
  set (index := map (fun ext => id ++ "/index" ++ ext) exts).
  destruct (search h url conds direct) as [[r|]|e|w] eqn:Hd; simpl.
  - destruct (forallb (soft_miss h url conds) direct) eqn:Hf.
    + apply forallb_soft_search in Hf. congruence.
    + rewrite ?app_nil_r. reflexivity.
  - rewrite (search_none_attempted _ _ _ Hd).
    destruct (search h url conds index) as [[r|]|e|w] eqn:Hi; simpl;
      rewrite ?map_app, ?app_nil_r; try reflexivity.
    now rewrite (attempted_all _ _ (search_none_attempted _ _ _ Hi)).
  - destruct (forallb (soft_miss h url conds) direct) eqn:Hf.
    + apply forallb_soft_search in Hf. congruence.
    + rewrite ?app_nil_r. reflexivity.
  - exfalso. exact (search_no_abort _ _ _ _ Hd).
Qed.

(** [_resolve] past its two guards. *)
Lemma resolve_reached (id : string) (opts : option Opts) :
  Regex.test PROTOCOL_RE id = false ->
  BUILTIN_MODULES_has h id = false ->
  resolveSync h id opts
  = (resolved <- _tryModuleResolve h id (base_of h opts) (conditions_of opts);;
     resolved <-
       match resolved with
       | Some r => ret (Some r)
       | None =>
           try_prefixes h id [""; "/index"] (extensions_of opts)
             (base_of h opts) (conditions_of opts)
       end;;
     match resolved with
     | None => throw (module_not_found h id (base_of h opts))
     | Some r =>
         path <- lift (fileURLToPath h (URLObj r));;
         realPath <- call (EvRealpath path) (realpathSync h path);;
         lift (pathToFileURL h realPath)
     end).
Proof.
  intros Hp Hb. unfold resolveSync, _resolve. rewrite Hp, Hb.
  destruct opts as [[[[|c u]|] [cs|] [es|]]|]; reflexivity.
Qed.

Lemma resolve_guarded (id : string) (opts : option Opts) :
  Regex.test PROTOCOL_RE id = true ->
  resolveSync h id opts = ([], Val id).
Proof.
  intros Hp. unfold resolveSync, _resolve. now rewrite Hp.
Qed.

Lemma resolve_builtin (id : string) (opts : option Opts) :
  Regex.test PROTOCOL_RE id = false ->
  BUILTIN_MODULES_has h id = true ->
  resolveSync h id opts = ([], Val ("node:" ++ id)).
Proof.
  intros Hp Hb. unfold resolveSync, _resolve. now rewrite Hp, Hb.
Qed.

(** Real-path canonicalization asks the host for no resolution. *)
Lemma canonical_no_calls (r : string) :
  resolve_calls
    (trace (path <- lift (fileURLToPath h (URLObj r));;
            realPath <- call (EvRealpath path) (realpathSync h path);;
            lift (pathToFileURL h realPath)))
  = [].
Proof.
  generalize (fileURLToPath h (URLObj r)). intros [path|e]; simpl.
  - destruct (realpathSync h path) as [rp|e]; simpl.
    + destruct (pathToFileURL h rp); reflexivity.
    + reflexivity.
  - reflexivity.
Qed.

(** The host resolutions of a call that reaches the host, when the first
    is a soft miss. *)
Lemma resolve_calls_soft (id : string) (opts : option Opts) :
  Regex.test PROTOCOL_RE id = false ->
  BUILTIN_MODULES_has h id = false ->
  soft_miss h (base_of h opts) (conditions_of opts) id = true ->
  resolve_calls (trace (resolveSync h id opts))
  = id :: attempted (soft_miss h (base_of h opts) (conditions_of opts))
            (candidates id (extensions_of opts)).
Proof.
  intros Hp Hb Hs. rewrite (resolve_reached _ _ Hp Hb).
  rewrite tryModuleResolve_eq. unfold soft_miss in Hs.
  destruct (attempt_of h (base_of h opts) (conditions_of opts) id);
    try discriminate.
  rewrite try_prefixes_eq.
  set (url := base_of h opts). set (conds := conditions_of opts).
  set (cands := candidates id (extensions_of opts)).
  assert (Hcalls : forall l, resolve_calls (map (ev url conds) l) = l).
  { induction l as [|x l IHl]; simpl; [reflexivity | now rewrite IHl]. }
  rewrite trace_bind. cbn [trace outcome fst snd].
  rewrite trace_bind. cbn [trace outcome fst snd].
  rewrite !resolve_calls_app, Hcalls. cbn [resolve_calls flat_map ev app].
  f_equal.
  destruct (search h url conds cands) as [[r|]|e|w];
    rewrite ?canonical_no_calls; cbn [trace throw fst resolve_calls flat_map];
    now rewrite app_nil_r.
Qed.

End Resolver.

(** ** The fallback search (claims C1, C3, C6, C10) *)

(** C1. When the initial host resolution of a call to [resolveSync] is a
    soft miss and the default extension list applies, the host is asked for
    the fallback candidates in exactly the order [id.mjs], [id.cjs],
    [id.js], [id.json], [id/index.mjs], [id/index.cjs], [id/index.js],
    [id/index.json], up to and including the first candidate that is not a
    soft miss: each candidate is attempted only after all those before it
    have failed, so no [/index] candidate is attempted before the four
    direct candidates have failed, and the search stops at the first
    candidate the host resolves. *)
Theorem C1_fallback_order (h : Host) (id : string) (opts : option Opts) :
  let soft := soft_miss h (base_of h opts) (conditions_of opts) in
  let cands :=
    [id ++ ".mjs"; id ++ ".cjs"; id ++ ".js"; id ++ ".json";
     id ++ "/index.mjs"; id ++ "/index.cjs"; id ++ "/index.js";
     id ++ "/index.json"] in
  let calls := resolve_calls (trace (resolveSync h id opts)) in
  extensions_of opts = DEFAULT_EXTENSIONS ->
  hd_error calls = Some id ->
  soft id = true ->
  calls = id :: attempted soft cands /\
  (exists k, tl calls = firstn k cands) /\
  (forall k, k < List.length (tl calls) -> forallb soft (firstn k cands) = true) /\
  (4 < List.length (tl calls) ->
   forallb soft [id ++ ".mjs"; id ++ ".cjs"; id ++ ".js"; id ++ ".json"] = true) /\
  (forall pre c post,
      cands = (pre ++ c :: post)%list -> forallb soft pre = true ->
      soft c = false -> tl calls = (pre ++ [c])%list) /\
  (forallb soft cands = true -> tl calls = cands).
Proof.
  intros soft cands calls Hext Hfirst Hsoft.
  assert (Hp : Regex.test PROTOCOL_RE id = false).
  { destruct (Regex.test PROTOCOL_RE id) eqn:E; [|reflexivity].
    subst calls. rewrite (resolve_guarded h id opts E) in Hfirst.
    discriminate. }
  assert (Hb : BUILTIN_MODULES_has h id = false).
  { destruct (BUILTIN_MODULES_has h id) eqn:E; [|reflexivity].
    subst calls. rewrite (resolve_builtin h id opts Hp E) in Hfirst.
    discriminate. }
  assert (Hcalls : calls = id :: attempted soft cands).
  { subst calls. rewrite (resolve_calls_soft h id opts Hp Hb Hsoft), Hext.
    reflexivity. }
  rewrite Hcalls. cbn [tl]. repeat split.
  - apply attempted_firstn.
  - apply attempted_earlier_failed.
  - intros H. exact (attempted_earlier_failed soft cands 4 H).
  - intros pre c post -> Hpre Hc. now apply attempted_stop.
  - apply attempted_all.
Qed.

(** With only [./x/index.js] and [./x.json] in the directory, the search
    for [./x] ends at [./x.json]. *)
Lemma C1_fallback_order_witness :
  resolve_calls
    (trace (resolveSync (Fixture.project ["./x/index.js"; "./x.json"])
              "./x" None))
  = ["./x"; "./x.mjs"; "./x.cjs"; "./x.js"; "./x.json"].
Proof.
  exact (proj1 (C1_fallback_order
                  (Fixture.project ["./x/index.js"; "./x.json"]) "./x" None
                  eq_refl eq_refl eq_refl)).
Defined.

(** C6. A specifier that starts with one of the protocol qualifiers
    [node:], [data:], [http:], [https:] is returned unchanged by
    [resolveSync], whatever the options, and no host primitive is called:
    no resolution, no fallback search, no real-path canonicalization. *)
Theorem C6_protocol_qualified_unchanged (h : Host) (id : string)
  (opts : option Opts) :
  Str.startsWith id "node:" = true \/ Str.startsWith id "data:" = true \/
  Str.startsWith id "http:" = true \/ Str.startsWith id "https:" = true ->
  resolveSync h id opts = ([], Val id).
Proof.
  intros H. apply resolve_guarded. rewrite PROTOCOL_RE_test.
  destruct H as [H|[H|[H|H]]]; apply startsWith_includes in H; rewrite H;
    now rewrite ?orb_true_r.
Qed.

Lemma C6_protocol_qualified_unchanged_witness :
  resolveSync (Fixture.project []) "https://esm.sh/mlly"
    (Some {| url := Some "/proj/index.mjs"; conditions := None;
             extensions := None |})
  = ([], Val "https://esm.sh/mlly").
Proof.
  apply C6_protocol_qualified_unchanged.
  right; right; right. reflexivity.
Defined.

(** C10. The protocol test is not anchored: a specifier that contains
    [node:], [data:], [http:] or [https:] anywhere is returned unchanged by
    [resolveSync], and no host primitive is called. *)
Theorem C10_protocol_anywhere_unchanged (h : Host) (id : string)
  (opts : option Opts) :
  Str.includes id "node:" = true \/ Str.includes id "data:" = true \/
  Str.includes id "http:" = true \/ Str.includes id "https:" = true ->
  resolveSync h id opts = ([], Val id).
Proof.
  intros H. apply resolve_guarded. rewrite PROTOCOL_RE_test.
  destruct H as [H|[H|[H|H]]]; rewrite H; now rewrite ?orb_true_r.
Qed.

(** The relative specifier [./a-node:b] is returned as it is. *)
Lemma C10_protocol_anywhere_unchanged_witness :
  resolveSync (Fixture.project ["./a-node:b"]) "./a-node:b" None
  = ([], Val "./a-node:b").
Proof.
  apply C10_protocol_anywhere_unchanged.
  left. reflexivity.
Defined.

(** C3. Take a call to [resolveSync] in which the primary host resolution
    takes place (the first resolution asked of the host is for the specifier
    itself).  When the host resolves neither the specifier nor any fallback
    candidate, whatever the extension list, [resolveSync] raises an error
    with code [ERR_MODULE_NOT_FOUND] whose message names the specifier and
    the base location, after asking for every candidate; a host failure with
    a code outside the not-found class, at the first resolution or at a
    candidate, is raised unchanged and nothing is tried after it. *)
Theorem C3_not_found_and_propagation (h : Host) (id : string)
  (opts : option Opts) :
  let url := base_of h opts in
  let conds := conditions_of opts in
  let soft := soft_miss h url conds in
  let cands := candidates id (extensions_of opts) in
  hd_error (resolve_calls (trace (resolveSync h id opts))) = Some id ->
  (forallb soft (id :: cands) = true ->
   exists e,
     resolveSync h id opts = (map (ev url conds) (id :: cands), Exn e) /\
     err_code e = Some "ERR_MODULE_NOT_FOUND" /\
     err_message e = "Cannot find module " ++ id ++ " imported from " ++ url) /\
  (forall e,
      attempt_of h url conds id = Hard e ->
      resolveSync h id opts = ([ev url conds id], Exn e)) /\
  (forall pre c post e,
      soft id = true -> cands = (pre ++ c :: post)%list ->
      forallb soft pre = true -> attempt_of h url conds c = Hard e ->
      resolveSync h id opts
      = (map (ev url conds) (id :: pre ++ [c]), Exn e)).
Proof.
  intros url conds soft cands Hfirst.
  assert (Hp : Regex.test PROTOCOL_RE id = false).
  { destruct (Regex.test PROTOCOL_RE id) eqn:E; [|reflexivity].
    rewrite (resolve_guarded h id opts E) in Hfirst. discriminate. }
  assert (Hb : BUILTIN_MODULES_has h id = false).
  { destruct (BUILTIN_MODULES_has h id) eqn:E; [|reflexivity].
    rewrite (resolve_builtin h id opts Hp E) in Hfirst. discriminate. }
  clear Hfirst.
  rewrite (resolve_reached h id opts Hp Hb), tryModuleResolve_eq,
    try_prefixes_eq.
  fold url conds cands soft. repeat split.
  - intros Hall. cbn [forallb] in Hall. apply andb_prop in Hall as [Hid Hc].
    unfold soft, soft_miss in Hid.
    destruct (attempt_of h url conds id); try discriminate.
    exists (module_not_found h id url).
    rewrite (attempted_all _ _ Hc), (forallb_soft_search _ _ _ _ Hc).
    cbn. rewrite app_nil_r. repeat split.
  - intros e He. rewrite He. reflexivity.
  - intros pre c post e Hid Hcands Hpre Hc.
    unfold soft, soft_miss in Hid.
    destruct (attempt_of h url conds id); try discriminate.
    assert (Hnot : soft c = false).
    { unfold soft, soft_miss. now rewrite Hc. }
    rewrite Hcands, (attempted_stop _ _ post _ Hpre Hnot),
      (search_stop_hard h url conds pre post c e Hpre Hc).
    reflexivity.
Qed.

(** Nothing resolves [./missing]; [./locked.mjs] cannot be read. *)
Lemma C3_not_found_and_propagation_witness :
  (exists e,
      resolveSync (Fixture.project []) "./missing" None
      = (map (ev "file:///proj" ["node"; "import"])
           ("./missing" :: candidates "./missing" DEFAULT_EXTENSIONS), Exn e)
      /\ err_code e = Some "ERR_MODULE_NOT_FOUND"
      /\ err_message e
         = "Cannot find module ./missing imported from file:///proj")
  /\ resolveSync
       (Fixture.host (Fixture.files_but [] "./locked.mjs") Fixture.empty_module)
       "./locked" None
     = (map (ev "file:///proj" ["node"; "import"])
          ["./locked"; "./locked.mjs"],
        Exn (Fixture.access_denied "./locked.mjs")).
Proof.
  split.
  - exact (proj1 (C3_not_found_and_propagation (Fixture.project [])
                    "./missing" None eq_refl) eq_refl).
  - exact (proj2 (proj2 (C3_not_found_and_propagation
                    (Fixture.host (Fixture.files_but [] "./locked.mjs")
                       Fixture.empty_module)
                    "./locked" None eq_refl))
             [] "./locked.mjs"
             ["./locked.cjs"; "./locked.js"; "./locked.json";
              "./locked/index.mjs"; "./locked/index.cjs";
              "./locked/index.js"; "./locked/index.json"]
             (Fixture.access_denied "./locked.mjs")
             eq_refl eq_refl eq_refl eq_refl).
Defined.

(** ** The asynchronous call shapes (claim C4) *)

Lemma append_nil_r (s : string) : s ++ "" = s.
Proof. induction s as [|c s IH]; simpl; [reflexivity | now rewrite IH]. Qed.

Lemma pcall_eq {A} (h : Host) (fn : M A) :
  _pcall h fn
  = (trace fn,
     match outcome fn with
     | Val v => Val (Fulfilled v)
     | Exn e => Val (Rejected (wrapped h e))
     | Abort w => Abort w
     end).
Proof.
  destruct fn as [l [v|e|w]]; unfold _pcall; simpl;
    now rewrite ?app_nil_r.
Qed.

Lemma prototype_toString_ends (name message : string) :
  exists pre, Error_prototype_toString name message = pre ++ message.
Proof.
  unfold Error_prototype_toString.
  destruct name as [|c name]; [now exists "" |].
  destruct message as [|d msg].
  - exists (String c name). now rewrite append_nil_r.
  - exists (String c name ++ ": "). simpl. f_equal.
    clear. induction name as [|x name IH]; simpl; [reflexivity | now rewrite IH].
Qed.

Lemma wrapped_wraps (h : Host) (e : JsError) :
  err_message (wrapped h e) = err_toString e /\
  (err_toString e = Error_prototype_toString (err_name e) (err_message e) ->
   exists pre, err_message (wrapped h e) = pre ++ err_message e) /\
  err_code (wrapped h e) = err_code e.
Proof.
  split; [reflexivity | split; [| reflexivity]].
  intros H. unfold wrapped; simpl. rewrite H. apply prototype_toString_ends.
Qed.

Section ResolverTotal.

Variable h : Host.

Lemma tryModuleResolve_no_abort (id url : string) (conds : list string) :
  no_abort (_tryModuleResolve h id url conds).
Proof.
  rewrite tryModuleResolve_eq. intros w. simpl.
  destruct (attempt_of h url conds id); discriminate.
Qed.

Lemma try_prefixes_no_abort (id : string) (exts : list string)
  (url : string) (conds : list string) :
  no_abort (try_prefixes h id [""; "/index"] exts url conds).
Proof.
  rewrite try_prefixes_eq. intros w. apply search_no_abort.
Qed.

Lemma resolveSync_no_abort (id : string) (opts : option Opts) :
  no_abort (resolveSync h id opts).
Proof.
  destruct (Regex.test PROTOCOL_RE id) eqn:Hp.
  { rewrite (resolve_guarded h id opts Hp). intros w; discriminate. }
  destruct (BUILTIN_MODULES_has h id) eqn:Hb.
  { rewrite (resolve_builtin h id opts Hp Hb). intros w; discriminate. }
  rewrite (resolve_reached h id opts Hp Hb).
  apply no_abort_bind; [apply tryModuleResolve_no_abort |].
  intros r1. apply no_abort_bind.
  - destruct r1; [auto with no_abort | apply try_prefixes_no_abort].
  - intros [r|]; [|auto with no_abort].
    repeat (apply no_abort_bind; [auto with no_abort | intros ?]).
    auto with no_abort.
Qed.

Lemma resolvePathSync_no_abort (id : string) (opts : option Opts) :
  no_abort (resolvePathSync h id opts).
Proof.
  unfold resolvePathSync. apply no_abort_bind.
  - apply resolveSync_no_abort.
  - intros r. auto with no_abort.
Qed.

End ResolverTotal.

Lemma pcall_settles {A} (h : Host) (fn : M A) :
  no_abort fn ->
  exists p, _pcall h fn = (trace fn, Val p) /\ settles_as (outcome fn) p.
Proof.
  intros Hn. rewrite pcall_eq.
  destruct (outcome fn) as [v|e|w] eqn:Ho.
  - exists (Fulfilled v). split; reflexivity.
  - exists (Rejected (wrapped h e)). split; [reflexivity|].
    exists (wrapped h e). split; [reflexivity | apply wrapped_wraps].
  - exfalso. exact (Hn w Ho).
Qed.

(** C4. [resolve] and [resolvePath] never raise: whatever the arguments,
    they return a promise, after the same host calls as the synchronous
    form.  The promise is fulfilled with the value of the synchronous form,
    or, when that form raises, rejected with a new error whose message is
    the text the original failure converts to, by its own [toString] (for a
    failure that prints as [Error.prototype.toString] does, that text ends
    with the original message), and whose code is the code of the original
    failure. *)
Theorem C4_async_shapes_reject (h : Host) (id : string) (opts : option Opts) :
  (exists p,
      resolve h id opts = (trace (resolveSync h id opts), Val p) /\
      settles_as (outcome (resolveSync h id opts)) p) /\
  (exists p,
      resolvePath h id opts = (trace (resolvePathSync h id opts), Val p) /\
      settles_as (outcome (resolvePathSync h id opts)) p).
Proof.
  split.
  - apply pcall_settles, resolveSync_no_abort.
  - apply pcall_settles, resolvePathSync_no_abort.
Qed.

(** A specifier the host refuses outside the not-found class: the promise
    of [resolve] is rejected with a new error, whose message is the text the
    host's error prints as, code included, and whose code is the host's. *)
Example resolve_rejects_refused_specifier :
  exists e,
    resolve (Fixture.host (Fixture.files_refusing [] "@bad")
               Fixture.empty_module) "@bad" None
    = ([ev "file:///proj" ["node"; "import"] "@bad"], Val (Rejected e)) /\
    err_name e = "Error" /\
    err_message e
    = "TypeError [ERR_INVALID_MODULE_SPECIFIER]: Invalid module @bad is not a valid package name" /\
    err_code e = Some "ERR_INVALID_MODULE_SPECIFIER".
Proof. eexists. repeat split. Qed.

(** ** The transformer (claims C5, C9) *)

Lemma transformModule_fuel_json (h : Host) (fuel : nat) (code : string)
  (o : Opts) (u : string) :
  url o = Some u -> Str.endsWith u ".json" = true ->
  transformModule_fuel h (S fuel) code (Some o)
  = ([], Val (Fulfilled ("export default " ++ code))).
Proof.
  intros Hu He. cbn [transformModule_fuel get_url]. rewrite Hu.
  destruct u as [|c u]; [discriminate|].
  cbn [bind ret]. rewrite He. reflexivity.
Qed.

Lemma bind_ext {A B} (m : M A) (f g : A -> M B) :
  (forall a, f a = g a) -> bind m f = bind m g.
Proof.
  intros H. destruct m as [l [a|e|w]]; simpl; [now rewrite H | reflexivity ..].
Qed.

Lemma map_M_ext {A B} (f g : A -> M B) (l : list A) :
  (forall a, f a = g a) -> map_M f l = map_M g l.
Proof.
  intros H. induction l as [|a l IH]; simpl; [reflexivity|].
  now rewrite H, IH.
Qed.

Section FuelEnough.

Variable h : Host.

Lemma transformModule_fuel_S (fuel : nat) (code : string) (opts : option Opts) :
  transformModule_fuel h (S fuel) code opts
  = async
      (u <- get_url h opts;;
       if match u with
          | Some (String c u') => Str.endsWith (String c u') ".json"
          | _ => false
          end
       then ret ("export default " ++ code)
       else
         code <- (p <- resolveImports h (transformModule_fuel h fuel) code opts;;
                  await p);;
         u <- get_url h opts;;
         match u with
         | Some (String c u') =>
             ret (Regex.replace_str IMPORT_META_URL_RE code
                    ("'" ++ String c u' ++ "'"))
         | _ => ret code
         end).
Proof. reflexivity. Qed.

(** The callback of the rewriter reaches [transformModule] only with a
    JSON location, where one level is enough. *)
Lemma resolve_import_fuel (fuel : nat) (st : string * Promise string) :
  resolve_import h (transformModule_fuel h (S fuel)) st
  = resolve_import h (transformModule_fuel h 1) st.
Proof.
  unfold resolve_import. f_equal. apply bind_ext. intros u.
  destruct (Str.endsWith u ".json") eqn:E; [|reflexivity].
  f_equal. apply bind_ext. intros code.
  now rewrite !(transformModule_fuel_json h _ code
                  {| url := Some u; conditions := None; extensions := None |}
                  u eq_refl E).
Qed.

Lemma resolveImports_fuel (fuel : nat) (code : string) (opts : option Opts) :
  resolveImports h (transformModule_fuel h (S fuel)) code opts
  = resolveImports h (transformModule_fuel h 1) code opts.
Proof.
  unfold resolveImports.
  destruct (Regex.matchAll0 ESM_IMPORT_RE code); [reflexivity|].
  f_equal. apply bind_ext. intros started.
  now rewrite (map_M_ext _ _ started (resolve_import_fuel fuel)).
Qed.

(** More than two levels of [transformModule_fuel] change nothing: the
    bottom of the recursion is never reached from [transformModule]. *)
Lemma transformModule_fuel_enough (fuel : nat) (code : string)
  (opts : option Opts) :
  transformModule_fuel h (S (S fuel)) code opts = transformModule h code opts.
Proof.
  unfold transformModule.
  rewrite (transformModule_fuel_S (S fuel)), (transformModule_fuel_S 1).
  now rewrite (resolveImports_fuel fuel).
Qed.

End FuelEnough.

(** C5. For a source text and options whose [url] ends in [.json],
    [transformModule] returns exactly [export default ] followed by the
    text: no import is rewritten, [import.meta.url] is not substituted and
    the host is not called. *)
Theorem C5_json_wrapped (h : Host) (code : string) (o : Opts) (u : string) :
  url o = Some u -> Str.endsWith u ".json" = true ->
  transformModule h code (Some o)
  = ([], Val (Fulfilled ("export default " ++ code))).
Proof.
  intros Hu He. unfold transformModule.
  exact (transformModule_fuel_json h 1 code o u Hu He).
Qed.

Lemma C5_json_wrapped_witness :
  transformModule (Fixture.project ["./a.mjs"])
    "{ 'from': 'import x from ./a.mjs', 'at': import.meta.url }"
    (Some {| url := Some "file:///proj/data.json"; conditions := None;
             extensions := None |})
  = ([], Val (Fulfilled
       "export default { 'from': 'import x from ./a.mjs', 'at': import.meta.url }")).
Proof.
  apply (C5_json_wrapped (Fixture.project ["./a.mjs"]) _ _
           "file:///proj/data.json"); reflexivity.
Defined.

(** C9 fails on the code: [transformModule] reads [opts.url] without a
    default for [opts], so with the options omitted the returned promise is
    rejected with a [TypeError], whatever the source text. *)
Theorem C9_options_omitted_rejects (h : Host) (code : string) :
  transformModule h code None
  = ([], Val (Rejected
       (new_TypeError h
          "Cannot read properties of undefined (reading 'url')"))).
Proof. reflexivity. Qed.

(** ** The location codec (claim C7) *)

Lemma render_ext (segs : list Regex.segment) (f g : nat -> string -> string) :
  (forall p m, f p m = g p m) -> Regex.render segs f = Regex.render segs g.
Proof.
  intros H. induction segs as [|[c|p m] segs IH]; simpl.
  - reflexivity.
  - now rewrite IH.
  - now rewrite IH, H.
Qed.

Lemma match_here_char (cs : Regex.cset) (b : string) (c : ascii) (a : string) :
  Regex.match_here (Regex.RChar cs) (b, String c a)
  = if Regex.cset_mem cs c then Some 1 else None.
Proof.
  unfold Regex.match_here. cbn [Regex.rmatch Regex.step_char snd fst].
  destruct (Regex.cset_mem cs c); [|reflexivity].
  cbn [Regex.index_of fst String.length]. f_equal. lia.
Qed.

Lemma segments_backslash (b a : string) :
  Regex.render
    (Regex.segments (Regex.RChar (Regex.CLit "\"%char)) 0 b a)
    (fun _ _ => "/")
  = slashes a.
Proof.
  revert b; induction a as [|c a IH]; intros b.
  - reflexivity.
  - cbn [Regex.segments slashes]. rewrite match_here_char.
    cbn [Regex.cset_mem].
    destruct (Ascii.eqb c "\"%char) eqn:E.
    + change (Regex.render (Regex.Hit ?p ?m :: ?l) ?f)
        with (f p m ++ Regex.render l f).
      rewrite IH. reflexivity.
    + change (Regex.render (Regex.Keep ?k :: ?l) ?f)
        with (String k (Regex.render l f)).
      rewrite IH. reflexivity.
Qed.

Lemma normalizeSlash_slashes (s : string) : normalizeSlash s = slashes s.
Proof.
  unfold normalizeSlash, Regex.replace_str.
  rewrite (render_ext _ _ (fun _ _ => "/")); [apply segments_backslash |].
  reflexivity.
Qed.

Lemma length_slashes (s : string) : String.length (slashes s) = String.length s.
Proof. induction s as [|c s IH]; simpl; [reflexivity | now rewrite IH]. Qed.

Lemma BUILTIN_MODULES_has_In (h : Host) (name : string) :
  In name (builtinModules h) -> BUILTIN_MODULES_has h name = true.
Proof.
  intros H. unfold BUILTIN_MODULES_has. apply existsb_exists.
  exists name. split; [exact H | apply String.eqb_refl].
Qed.

(** C7, as stated, fails: the path form of a builtin name is the name
    itself, and the URL form of a name that already carries [node:] is left
    as it is. *)
Lemma C7_counterexample :
  ~ (forall (h : Host) (name : string),
        In name (builtinModules h) ->
        fileURLToPath h (Str name) = Normal ("node:" ++ name)) /\
  ~ (forall (h : Host) (name : string),
        In name (builtinModules h) ->
        normalizeid h (Str name) = "node:" ++ name).
Proof.
  split; intros H.
  - specialize (H (Fixture.project []) "fs" (or_introl eq_refl)).
    discriminate H.
  - specialize (H (Fixture.project []) "node:test").
    assert (Hin : In "node:test" (builtinModules (Fixture.project []))).
    { simpl. tauto. }
    specialize (H Hin). discriminate H.
Qed.

(** C7, amended. For a builtin module name that contains none of the
    tokens [node:], [data:], [http:], [https:], [file:], the URL form
    ([normalizeid]) is the name qualified with [node:]; the path form
    ([fileURLToPath]) is the name itself with its backslashes turned into
    slashes, never the qualified name. *)
Theorem C7_builtin_forms (h : Host) (name : string) :
  In name (builtinModules h) ->
  Str.includes name "node:" || Str.includes name "data:"
  || Str.includes name "http:" || Str.includes name "https:"
  || Str.includes name "file:" = false ->
  normalizeid h (Str name) = "node:" ++ name /\
  fileURLToPath h (Str name) = Normal (slashes name) /\
  fileURLToPath h (Str name) <> Normal ("node:" ++ name).
Proof.
  intros Hin Htok.
  assert (Hpath : fileURLToPath h (Str name) = Normal (slashes name)).
  { unfold fileURLToPath.
    destruct (Str.startsWith name "file://") eqn:Hs.
    - exfalso. unfold Str.startsWith in Hs.
      change "file://" with ("file:" ++ "//") in Hs.
      rewrite prefix_app in Hs. apply andb_prop in Hs as [Hs _].
      apply (startsWith_includes name "file:") in Hs.
      rewrite Hs, !orb_true_r in Htok. discriminate.
    - simpl. now rewrite normalizeSlash_slashes. }
  repeat split.
  - unfold normalizeid. rewrite PROTOCOL_OR_FILE_RE_test, Htok.
    now rewrite (BUILTIN_MODULES_has_In h name Hin).
  - exact Hpath.
  - rewrite Hpath. intros Heq. injection Heq as Heq.
    apply (f_equal String.length) in Heq.
    rewrite length_slashes in Heq. simpl in Heq. lia.
Qed.

Lemma C7_builtin_forms_witness :
  normalizeid (Fixture.project []) (Str "fs") = "node:fs" /\
  fileURLToPath (Fixture.project []) (Str "fs") = Normal "fs" /\
  fileURLToPath (Fixture.project []) (Str "fs") <> Normal "node:fs".
Proof.
  apply (C7_builtin_forms (Fixture.project []) "fs").
  - simpl. tauto.
  - reflexivity.
Defined.

(** ** The evaluator (claim C8) *)

(** C8 fails on the code: the data URL is used as a pattern without
    escaping, and the base64 digit [+] is a quantifier.  The unit of
    [x=>1;throw new Error('boom')] has a [+] in its URL; when its import
    fails, the URL is still in the stack of the failure and the logical
    location is not. *)
Theorem C8_stack_keeps_data_url :
  let code := "x=>1;throw new Error('boom')" in
  let dataURL :=
    "data:text/javascript;base64,eD0+MTt0aHJvdyBuZXcgRXJyb3IoJ2Jvb20nKQ==" in
  let h := Fixture.host (Fixture.files []) Fixture.failing_module in
  toDataURL code = dataURL /\
  evalModule h code
    (Some {| url := Some "/proj/boom.mjs"; conditions := None;
             extensions := None |})
  = ([EvImport dataURL],
     Val (Rejected
            {| err_name := "Error";
               err_message := "boom";
               err_code := None;
               err_stack := "Error: boom" ++ String "010"%char ""
                            ++ "    at " ++ dataURL ++ ":1:12";
               err_toString := "Error: boom" |})).
Proof. split; vm_compute; reflexivity. Qed.

(** ** The pattern of the import rewriter (claim C2) *)

Lemma append_assoc (s t u : string) : (s ++ t) ++ u = s ++ t ++ u.
Proof. induction s as [|c s IH]; simpl; [reflexivity | now rewrite IH]. Qed.

Module PatternOfPlainText.

Import Regex PlainPattern.

Lemma parse_plain (s rest : string) (cur : frame) (stack : list frame) :
  plain s = true ->
  parse (s ++ rest) cur stack = parse rest (push_chars cur s) stack.
Proof.
  revert cur; induction s as [|c s IH]; intros cur H.
  - reflexivity.
  - cbn [plain] in H. apply andb_prop in H as [Hc Hs].
    unfold plain_char in Hc. cbn [append parse push_chars].
    destruct (classify c); try discriminate.
    now apply IH.
Qed.

Lemma alts_push_chars (f : frame) (s : string) :
  alts (push_chars f s) = alts f.
Proof.
  revert f; induction s as [|c s IH]; intros f; simpl.
  - reflexivity.
  - now rewrite IH.
Qed.

Lemma terms_push_chars (f : frame) (s : string) :
  terms (push_chars f s) = rev_lits s (terms f).
Proof.
  revert f; induction s as [|c s IH]; intros f; simpl.
  - reflexivity.
  - now rewrite IH.
Qed.

Lemma fold_rev_lits (s : string) (ts : list regex) (acc : regex) :
  fold_left (fun a t => RSeq t a) (rev_lits s ts) acc
  = fold_left (fun a t => RSeq t a) ts (lit_onto s acc).
Proof.
  revert ts acc; induction s as [|c s IH]; intros ts acc; simpl.
  - reflexivity.
  - now rewrite IH.
Qed.

Lemma lit_onto_empty (s : string) : lit_onto s REmpty = lit s.
Proof. induction s as [|c s IH]; simpl; [reflexivity | now rewrite IH]. Qed.

Lemma close_push_chars (l : last_term) (s : string) :
  close (push_chars (frame0 l) s) = lit s.
Proof.
  unfold close. rewrite alts_push_chars, terms_push_chars.
  unfold seq_of. rewrite fold_rev_lits. simpl.
  apply lit_onto_empty.
Qed.

(** One parenthesised plain specifier, read in a frame that starts an
    alternative. *)
Lemma parse_group (A : list regex) (l : last_term) (s rest : string) :
  plain s = true ->
  parse ("(" ++ s ++ ")" ++ rest) {| alts := A; terms := []; last := l |} []
  = parse rest {| alts := A; terms := [RGroup (lit s)]; last := AfterAtom |} [].
Proof.
  intros H. cbn [append parse classify]. simpl (classify "(").
  cbv iota. rewrite (parse_plain s _ _ _ H).
  cbn [append parse]. simpl (classify ")"). cbv iota.
  rewrite close_push_chars. reflexivity.
Qed.

Lemma imports_pattern_cons (i j : string) (ids : list string) :
  imports_pattern (i :: j :: ids)
  = "(" ++ i ++ ")" ++ "|" ++ imports_pattern (j :: ids).
Proof.
  change (imports_pattern (i :: j :: ids))
    with (("(" ++ i ++ ")") ++ "|" ++ imports_pattern (j :: ids)).
  cbn [append]. f_equal. now rewrite append_assoc.
Qed.

Lemma parse_specifiers (ids : list string) (A : list regex) (l : last_term) :
  ids <> [] -> forallb plain ids = true ->
  parse (imports_pattern ids) {| alts := A; terms := []; last := l |} []
  = Parsed (alts_regex (rev A ++ map grp ids)).
Proof.
  revert A l; induction ids as [|i ids IH]; intros A l Hne Hp.
  - congruence.
  - cbn [forallb] in Hp. apply andb_prop in Hp as [Hi Hids].
    destruct ids as [|j ids].
    + unfold imports_pattern. cbn [map Str.join].
      replace ("(" ++ i ++ ")") with ("(" ++ i ++ ")" ++ "") by reflexivity.
      rewrite (parse_group A l i "" Hi). reflexivity.
    + rewrite (imports_pattern_cons i j ids).
      rewrite (parse_group A l i _ Hi).
      cbn [append parse]. simpl (classify "|"). cbv iota.
      unfold next_alt. cbn [alts terms seq_of fold_left].
      rewrite (IH (RSeq (RGroup (lit i)) REmpty :: A) AtStart);
        [| discriminate | exact Hids].
      cbn [rev]. rewrite <- app_assoc. reflexivity.
Qed.

Lemma regexp_new_specifiers (ids : list string) :
  ids <> [] -> forallb plain ids = true ->
  regexp_new (imports_pattern ids) = Parsed (alts_regex (map grp ids)).
Proof.
  intros Hne Hp. unfold regexp_new, frame0.
  now rewrite (parse_specifiers ids [] AtStart Hne Hp).
Qed.

End PatternOfPlainText.

(** ** The substitution pass on plain specifiers *)

Section PlainSpecifiers.

Import Regex PlainPattern PatternOfPlainText.

Variable ids : list string.
Hypothesis ids_nonempty : ids <> [].

Let R : regex := alts_regex (map grp ids).

Lemma rmatch_grp (s : string) (fuel : nat) (b a : string) :
  rmatch Forward (grp s) fuel (b, a)
  = if String.prefix s a
    then [(Str.rev_onto s b, Str.drop (String.length s) a)]
    else [].
Proof.
  unfold grp. cbn [rmatch]. rewrite rmatch_lit.
  destruct (String.prefix s a); reflexivity.
Qed.

Lemma rmatch_alt_of (i : string) (l : list string) (fuel : nat) (b a : string) :
  rmatch Forward (alt_of (grp i) (map grp l)) fuel (b, a)
  = flat_map
      (fun s => if String.prefix s a
                then [(Str.rev_onto s b, Str.drop (String.length s) a)]
                else [])
      (i :: l).
Proof.
  revert i; induction l as [|j l IH]; intros i.
  - cbn [map alt_of flat_map]. rewrite rmatch_grp. now rewrite app_nil_r.
  - cbn [map alt_of]. cbn [rmatch]. rewrite rmatch_grp, IH. reflexivity.
Qed.

Lemma match_here_specifiers (b a : string) :
  match_here R (b, a) = option_map String.length (first_prefix ids a).
Proof.
  unfold match_here, R, first_prefix.
  destruct ids as [|i l]; [congruence|].
  cbn [map alts_regex]. rewrite rmatch_alt_of.
  generalize (i :: l). intros l'. induction l' as [|s l' IH].
  - reflexivity.
  - cbn [flat_map find]. destruct (String.prefix s a); cbn [app].
    + unfold index_of. cbn [option_map fst]. rewrite length_rev_onto.
      f_equal. lia.
    + exact IH.
Qed.

Lemma first_prefix_some (a s : string) :
  first_prefix ids a = Some s ->
  In s ids /\ String.prefix s a = true /\ Str.take (String.length s) a = s.
Proof.
  intros H. apply find_some in H as [Hin Hp].
  repeat split; [exact Hin | exact Hp | now apply prefix_take].
Qed.

Lemma first_prefix_none (a s : string) :
  first_prefix ids a = None -> In s ids -> String.prefix s a = false.
Proof. intros H Hin. exact (find_none _ _ H s Hin). Qed.

Lemma segments_skip (k : nat) (b : string) (c : ascii) (a : string) :
  segments R (S k) b (String c a) = segments R k (String c b) a.
Proof. reflexivity. Qed.

Lemma segments_scan (b : string) (c : ascii) (a : string) :
  segments R 0 b (String c a)
  = match first_prefix ids (String c a) with
    | Some s =>
        Hit (String.length b) s ::
        match String.length s with
        | 0 => Keep c :: segments R 0 (String c b) a
        | S k => segments R k (String c b) a
        end
    | None => Keep c :: segments R 0 (String c b) a
    end.
Proof.
  cbn [segments]. rewrite match_here_specifiers.
  destruct (first_prefix ids (String c a)) as [s|] eqn:E; cbn [option_map].
  - apply first_prefix_some in E as (_ & _ & ->). reflexivity.
  - reflexivity.
Qed.

Lemma segments_end (b : string) :
  segments R 0 b ""
  = match first_prefix ids "" with
    | Some s => [Hit (String.length b) s]
    | None => []
    end.
Proof.
  cbn [segments]. rewrite match_here_specifiers.
  destruct (first_prefix ids "") as [s|] eqn:E; cbn [option_map].
  - apply first_prefix_some in E as (_ & _ & ->). reflexivity.
  - reflexivity.
Qed.

Lemma hits_of_cons_hit (p : nat) (m : string) (l : list segment) :
  hits_of (Hit p m :: l) = (p, m) :: hits_of l.
Proof. reflexivity. Qed.

Lemma hits_of_cons_keep (c : ascii) (l : list segment) :
  hits_of (Keep c :: l) = hits_of l.
Proof. reflexivity. Qed.

(** Every match is a specifier, at an index where the text is that
    specifier. *)
Lemma hits_sound (a : string) :
  forall (skip : nat) (b : string) (p : nat) (m : string),
    In (p, m) (hits_of (segments R skip b a)) ->
    In m ids /\ String.length b + skip <= p /\
    p <= String.length b + String.length a /\
    String.prefix m (Str.drop (p - String.length b) a) = true.
Proof.
  induction a as [|c a IH]; intros skip b p m Hin.
  - destruct skip as [|k]; [|contradiction].
    rewrite segments_end in Hin.
    destruct (first_prefix ids "") as [s|] eqn:E; [|contradiction].
    destruct Hin as [Heq|[]]. injection Heq as <- <-.
    apply first_prefix_some in E as (Hi & Hp & _).
    rewrite Nat.sub_diag. cbn [Str.drop String.length].
    repeat split; [exact Hi | lia | lia | exact Hp].
  - assert (Hrec : forall k,
               In (p, m) (hits_of (segments R k (String c b) a)) ->
               In m ids /\ String.length b + S k <= p /\
               p <= String.length b + String.length (String c a) /\
               String.prefix m (Str.drop (p - String.length b) (String c a))
               = true).
    { intros k Hk. apply IH in Hk as (Hi & Hlo & Hhi & Hp).
      cbn [String.length] in *.
      replace (p - String.length b) with (S (p - S (String.length b))) by lia.
      repeat split; [exact Hi | lia | lia | exact Hp]. }
    destruct skip as [|k].
    + rewrite segments_scan in Hin.
      destruct (first_prefix ids (String c a)) as [s|] eqn:E.
      * rewrite hits_of_cons_hit in Hin. destruct Hin as [Heq|Hin].
        -- injection Heq as <- <-.
           apply first_prefix_some in E as (Hi & Hp & _).
           rewrite Nat.sub_diag. cbn [Str.drop String.length].
           repeat split; [exact Hi | lia | lia | exact Hp].
        -- destruct (String.length s) as [|k].
           ++ rewrite hits_of_cons_keep in Hin.
              apply Hrec in Hin as (Hi & Hlo & Hhi & Hp).
              repeat split; [exact Hi | lia | exact Hhi | exact Hp].
           ++ apply Hrec in Hin as (Hi & Hlo & Hhi & Hp).
              repeat split; [exact Hi | lia | exact Hhi | exact Hp].
      * rewrite hits_of_cons_keep in Hin.
        apply Hrec in Hin as (Hi & Hlo & Hhi & Hp).
        repeat split; [exact Hi | lia | exact Hhi | exact Hp].
    + rewrite segments_skip in Hin. now apply Hrec.
Qed.

(** An occurrence of a specifier is replaced, unless it starts inside the
    text of an earlier match. *)
Lemma hits_cover (a : string) :
  forall (skip : nat) (b : string) (p : nat) (s : string),
    In s ids -> skip <= p -> p <= String.length a ->
    String.prefix s (Str.drop p a) = true ->
    (exists m, In (String.length b + p, m) (hits_of (segments R skip b a))) \/
    (exists q m, In (q, m) (hits_of (segments R skip b a)) /\
                 q < String.length b + p < q + String.length m).
Proof.
  induction a as [|c a IH]; intros skip b p s Hs Hskip Hlen Hp.
  - cbn [String.length] in Hlen.
    assert (p = 0) by lia. subst p.
    assert (skip = 0) by lia. subst skip.
    rewrite segments_end. cbn [Str.drop] in Hp.
    destruct (first_prefix ids "") as [s0|] eqn:E.
    + left. exists s0. rewrite Nat.add_0_r. now left.
    + rewrite (first_prefix_none _ _ E Hs) in Hp. discriminate.
  - assert (Hrec : forall k p',
               p = S p' -> k <= p' ->
               (exists m, In (String.length b + p, m)
                            (hits_of (segments R k (String c b) a))) \/
               (exists q m, In (q, m) (hits_of (segments R k (String c b) a))
                            /\ q < String.length b + p < q + String.length m)).
    { intros k p' -> Hk. cbn [String.length] in Hlen. cbn [Str.drop] in Hp.
      destruct (IH k (String c b) p' s Hs Hk ltac:(lia) Hp) as [[m Hm]|[q [m [Hm Hq]]]].
      - left. exists m. cbn [String.length] in Hm.
        now replace (String.length b + S p') with (S (String.length b) + p') by lia.
      - right. exists q, m. cbn [String.length] in Hq. split; [exact Hm | lia]. }
    destruct skip as [|k].
    + rewrite segments_scan.
      destruct (first_prefix ids (String c a)) as [s0|] eqn:E.
      * destruct p as [|p'].
        { left. exists s0. rewrite Nat.add_0_r, hits_of_cons_hit. now left. }
        destruct (String.length s0) as [|k] eqn:El.
        -- rewrite hits_of_cons_hit, hits_of_cons_keep.
           destruct (Hrec 0 p' eq_refl ltac:(lia)) as [[m Hm]|[q [m [Hm Hq]]]].
           ++ left. exists m. now right.
           ++ right. exists q, m. split; [now right | exact Hq].
        -- destruct (Nat.le_gt_cases k p') as [Hk|Hk].
           ++ rewrite hits_of_cons_hit.
              destruct (Hrec k p' eq_refl Hk) as [[m Hm]|[q [m [Hm Hq]]]].
              ** left. exists m. now right.
              ** right. exists q, m. split; [now right | exact Hq].
           ++ right. exists (String.length b), s0.
              rewrite hits_of_cons_hit. split; [now left | lia].
      * rewrite hits_of_cons_keep. destruct p as [|p'].
        { cbn [Str.drop] in Hp.
          rewrite (first_prefix_none _ _ E Hs) in Hp. discriminate. }
        exact (Hrec 0 p' eq_refl ltac:(lia)).
    + rewrite segments_skip. destruct p as [|p']; [lia|].
      apply (Hrec k p' eq_refl). lia.
Qed.

Lemma disjoint_from_le (from from' : nat) (l : list (nat * string)) :
  from' <= from -> disjoint_from from l -> disjoint_from from' l.
Proof.
  destruct l as [|[p m] l]; simpl; [tauto|].
  intros Hle [Hp Hl]. split; [lia | exact Hl].
Qed.

(** The matches come in text order and do not overlap. *)
Lemma hits_disjoint (a : string) :
  forall (skip : nat) (b : string),
    disjoint_from (String.length b + skip) (hits_of (segments R skip b a)).
Proof.
  induction a as [|c a IH]; intros skip b.
  - destruct skip as [|k]; [|exact I].
    rewrite segments_end. destruct (first_prefix ids ""); simpl; [|exact I].
    split; [lia | exact I].
  - destruct skip as [|k].
    + rewrite segments_scan.
      destruct (first_prefix ids (String c a)) as [s0|] eqn:E.
      * rewrite hits_of_cons_hit. cbn [disjoint_from]. split; [lia|].
        destruct (String.length s0) as [|k].
        -- rewrite hits_of_cons_keep.
           apply (disjoint_from_le (String.length (String c b) + 0));
             [cbn [String.length]; lia | apply IH].
        -- apply (disjoint_from_le (String.length (String c b) + k));
             [cbn [String.length]; lia | apply IH].
      * rewrite hits_of_cons_keep.
        apply (disjoint_from_le (String.length (String c b) + 0));
          [cbn [String.length]; lia | apply IH].
    + rewrite segments_skip.
      apply (disjoint_from_le (String.length (String c b) + k));
        [cbn [String.length]; lia | apply IH].
Qed.

End PlainSpecifiers.

(** ** What [resolveImports] substitutes *)

Lemma bind_val_inv {A B} (m : M A) (f : A -> M B) (l : list Event) (b : B) :
  bind m f = (l, Val b) ->
  exists l1 a l2, m = (l1, Val a) /\ f a = (l2, Val b) /\ l = (l1 ++ l2)%list.
Proof.
  destruct m as [l1 [a|e|w]]; simpl; try discriminate.
  destruct (f a) as [l2 o] eqn:E. intros H. injection H as <- ->.
  exists l1, a, l2. repeat split. exact E.
Qed.

Lemma async_fulfilled_inv {A} (m : M A) (l : list Event) (a : A) :
  async m = (l, Val (Fulfilled a)) -> m = (l, Val a).
Proof.
  destruct m as [l1 [x|e|w]]; simpl; intros H; try discriminate;
    injection H as <-; congruence.
Qed.

Lemma map_M_inv {A B} (f : A -> M B) (l : list A) (t : list Event)
  (bs : list B) :
  map_M f l = (t, Val bs) ->
  Forall2 (fun a b => exists t', f a = (t', Val b)) l bs.
Proof.
  revert t bs; induction l as [|a l IH]; intros t bs H.
  - injection H as <- <-. constructor.
  - cbn [map_M] in H.
    apply bind_val_inv in H as (l1 & b & l2 & Hb & H & _).
    apply bind_val_inv in H as (l3 & bs' & l4 & Hbs & H & _).
    injection H as <- <-. constructor.
    + now exists l1.
    + exact (IH _ _ Hbs).
Qed.

Lemma render_keep (s : string) (f : nat -> string -> string) :
  Regex.render (map Regex.Keep (list_ascii_of_string s)) f = s.
Proof. induction s as [|c s IH]; simpl; [reflexivity | now rewrite IH]. Qed.

Lemma hits_of_keep (s : string) :
  Regex.hits_of (map Regex.Keep (list_ascii_of_string s)) = [].
Proof. induction s as [|c s IH]; simpl; [reflexivity | exact IH]. Qed.

Lemma Map_get_key (resolved : list (string * string)) (m : string) :
  In m (map fst resolved) ->
  exists u, Map_get resolved m = Some u /\ In (m, u) resolved.
Proof.
  induction resolved as [|[k v] resolved IH]; intros Hin.
  - contradiction.
  - cbn [Map_get]. destruct (String.eqb_spec k m) as [->|Hne].
    + exists v. split; [reflexivity | now left].
    + destruct Hin as [Hk|Hin]; [simpl in Hk; congruence|].
      destruct (IH Hin) as [u [Hu Hi]]. exists u. split; [exact Hu | now right].
Qed.

Section Rewritten.

Variable h : Host.
Variable tm : string -> option Opts -> M (Promise string).
Variable opts : option Opts.

Lemma resolve_import_inv (st : string * Promise string) (t : list Event)
  (kv : string * string) :
  resolve_import h tm st = (t, Val (Fulfilled kv)) ->
  exists u,
    snd st = Fulfilled u /\ fst kv = fst st /\
    (Str.endsWith u ".json" = false -> snd kv = u).
Proof.
  unfold resolve_import. intros H. apply async_fulfilled_inv in H.
  apply bind_val_inv in H as (l1 & u & l2 & Hu & H & _).
  apply bind_val_inv in H as (l3 & u' & l4 & Hu' & H & _).
  injection H as <- <-.
  destruct (snd st) as [u0|e]; [|discriminate].
  injection Hu as <- <-. exists u0. repeat split.
  intros Hj. rewrite Hj in Hu'. injection Hu' as <- <-. reflexivity.
Qed.

Lemma resolved_entries (ids : list string)
  (started : list (string * Promise string))
  (settled : list (Promise (string * string))) :
  Forall2 (fun id st =>
             exists t', (p <- resolve h id opts;; ret (id, p)) = (t', Val st))
          ids started ->
  Forall2 (fun st q => exists t', resolve_import h tm st = (t', Val q))
          started settled ->
  first_rejection settled = None ->
  map fst (fulfilled_values settled) = ids /\
  Forall (entry_ok h opts) (fulfilled_values settled).
Proof.
  intros H1. revert settled.
  induction H1 as [|id st ids started [t1 Hst] _ IH]; intros settled H2 Hrej.
  - inversion H2; subst. split; [reflexivity | constructor].
  - inversion H2 as [|st' q started' settled' [t2 Hq] H2' E1 E2]; subst.
    destruct q as [kv|e]; [|discriminate].
    cbn [first_rejection] in Hrej.
    destruct (IH settled' H2' Hrej) as [Hkeys Hok].
    apply bind_val_inv in Hst as (l1 & p & l2 & Hp & Hst & _).
    injection Hst as <- <-.
    apply resolve_import_inv in Hq as (u & Hu & Hk & Hj).
    cbn [fst snd] in Hu, Hk. subst p.
    cbn [fulfilled_values map]. split.
    + now rewrite Hk, Hkeys.
    + constructor; [|exact Hok].
      exists l1, u. rewrite Hk. split; [exact Hp | exact Hj].
Qed.

(** The text [resolveImports] returns is the substitution pass rendered
    with a map that has an entry for every distinct specifier. *)
Lemma resolveImports_output (code : string) (l : list Event) (out : string) :
  resolveImports h tm code opts = (l, Val (Fulfilled out)) ->
  exists resolved,
    out = Regex.render (substitution_pass code)
            (fun _ m => replacer resolved m) /\
    map fst resolved = specifiers code /\
    Forall (entry_ok h opts) resolved.
Proof.
  unfold resolveImports, substitution_pass, specifiers.
  intros H. apply async_fulfilled_inv in H.
  destruct (Regex.matchAll0 ESM_IMPORT_RE code) as [|i imports] eqn:E.
  - injection H as <- <-. exists []. rewrite render_keep.
    repeat split. constructor.
  - apply bind_val_inv in H as (l1 & started & l2 & Hstarted & H & _).
    apply bind_val_inv in H as (l3 & settled & l4 & Hsettled & H & _).
    destruct (first_rejection (map snd started)); [discriminate|].
    destruct (first_rejection settled) eqn:Hrej; [discriminate|].
    apply bind_val_inv in H as (l5 & re & l6 & Hre & H & _).
    injection H as <- <-.
    unfold new_RegExp in Hre.
    destruct (Regex.regexp_new (imports_pattern (Str.unique (i :: imports))))
      as [re'| |]; try discriminate.
    injection Hre as <- <-.
    exists (fulfilled_values settled). split; [reflexivity|].
    apply map_M_inv in Hstarted. apply map_M_inv in Hsettled.
    exact (resolved_entries _ _ _ Hstarted Hsettled Hrej).
Qed.

End Rewritten.

Lemma unique_cons_nonempty (x : string) (l : list string) :
  Str.unique (x :: l) <> [].
Proof. unfold Str.unique. cbn [Str.unique_onto existsb]. discriminate. Qed.

(** Replacements and verbatim occurrences of specifiers do not coincide, in
    either direction.  The specifiers go into the pattern as they are, so
    the [.] of [./a.js] matches any code unit and [x/a_js] is replaced
    although it is no specifier; and in [aaa] the second [aa] is not
    replaced, the first having consumed its start. *)
Lemma substitution_pass_not_exact :
  ~ (forall (code : string) (p : nat),
        (exists m, In (p, m) (substitution_hits code)) ->
        exists s, In s (specifiers code) /\ Str.occurs_at s p code) /\
  ~ (forall (code : string) (p : nat),
        (exists s, In s (specifiers code) /\ Str.occurs_at s p code) ->
        exists m, In (p, m) (substitution_hits code)).
Proof.
  split; intros H.
  - destruct (H "import a from './a.js'; const k = 'x/a_js'" 35)
      as [s [Hs [_ Hocc]]].
    + exists "x/a_js". vm_compute. tauto.
    + vm_compute in Hs. destruct Hs as [<-|[]]. vm_compute in Hocc.
      discriminate.
  - destruct (H "import 'aa';aaa" 13) as [m Hm].
    + exists "aa". split; [vm_compute; tauto|].
      split; [vm_compute; lia | vm_compute; reflexivity].
    + vm_compute in Hm. destruct Hm as [Hm|[Hm|[]]]; discriminate.
Qed.

(** What does hold of the substitution pass, when no extracted specifier
    contains a pattern syntax character (which leaves out every relative
    specifier, for its [.]): every replacement is at an index
    where the text is one of the distinct specifiers, code unit for code
    unit, and that specifier is the text replaced; every index where the
    text is one of the specifiers starts a replacement or lies inside the
    text of an earlier one; the replacements are in text order and do not
    overlap; and the text [resolveImports] returns is the source with each
    replaced specifier turned into the location resolved for it (for a JSON
    location, the data URL made of it). *)
Lemma plain_specifiers_pass (code : string) :
  forallb Regex.plain (specifiers code) = true ->
  (forall p m,
      In (p, m) (substitution_hits code) ->
      In m (specifiers code) /\ Str.occurs_at m p code) /\
  (forall p s,
      In s (specifiers code) -> Str.occurs_at s p code ->
      (exists m, In (p, m) (substitution_hits code)) \/
      (exists q m, In (q, m) (substitution_hits code) /\
                   q < p < q + String.length m)) /\
  disjoint_from 0 (substitution_hits code) /\
  (forall h tm opts l out,
      resolveImports h tm code opts = (l, Val (Fulfilled out)) ->
      exists resolved,
        out = Regex.render (substitution_pass code)
                (fun _ m => replacer resolved m) /\
        forall p m,
          In (p, m) (substitution_hits code) ->
          exists u t location,
            Map_get resolved m = Some u /\
            resolve h m opts = (t, Val (Fulfilled location)) /\
            (Str.endsWith location ".json" = false -> u = location)).
Proof.
  intros Hplain.
  assert (Hsound : forall p m,
             In (p, m) (substitution_hits code) ->
             In m (specifiers code) /\ Str.occurs_at m p code).
  { unfold substitution_hits, substitution_pass. intros p m Hin.
    destruct (Regex.matchAll0 ESM_IMPORT_RE code) as [|i imports] eqn:E.
    - rewrite hits_of_keep in Hin. contradiction.
    - assert (Hne : specifiers code <> []).
      { unfold specifiers. rewrite E. apply unique_cons_nonempty. }
      rewrite (PatternOfPlainText.regexp_new_specifiers _ Hne Hplain) in Hin.
      apply (hits_sound _ Hne) in Hin as (Hi & _ & Hhi & Hp).
      cbn [String.length] in Hhi, Hp. rewrite Nat.sub_0_r in Hp.
      split; [exact Hi | split; [exact Hhi | exact Hp]]. }
  split; [exact Hsound | split; [| split]].
  - unfold substitution_hits, substitution_pass. intros p s Hs [Hlen Hp].
    destruct (Regex.matchAll0 ESM_IMPORT_RE code) as [|i imports] eqn:E.
    + unfold specifiers in Hs. rewrite E in Hs. contradiction.
    + assert (Hne : specifiers code <> []).
      { unfold specifiers. rewrite E. apply unique_cons_nonempty. }
      rewrite (PatternOfPlainText.regexp_new_specifiers _ Hne Hplain).
      exact (hits_cover _ Hne code 0 "" p s Hs (Nat.le_0_l p) Hlen Hp).
  - unfold substitution_hits, substitution_pass.
    destruct (Regex.matchAll0 ESM_IMPORT_RE code) as [|i imports] eqn:E.
    + rewrite hits_of_keep. exact I.
    + assert (Hne : specifiers code <> []).
      { unfold specifiers. rewrite E. apply unique_cons_nonempty. }
      rewrite (PatternOfPlainText.regexp_new_specifiers _ Hne Hplain).
      exact (hits_disjoint _ Hne code 0 "").
  - intros h tm opts l out Hout.
    apply resolveImports_output in Hout as (resolved & Hrender & Hkeys & Hok).
    exists resolved. split; [exact Hrender|].
    intros p m Hin. apply Hsound in Hin as [Hm _].
    rewrite <- Hkeys in Hm.
    destruct (Map_get_key resolved m Hm) as [u [Hu Hi]].
    rewrite Forall_forall in Hok.
    destruct (Hok _ Hi) as (t & location & Hres & Hj).
    exists u, t, location. repeat split; assumption.
Qed.

(** The import of [lodash] is rewritten, and so is the other [lodash]. *)
Lemma plain_specifiers_pass_example :
  substitution_hits "import _ from 'lodash'; use('lodash')"
  = [(15, "lodash"); (29, "lodash")] /\
  In "lodash" (specifiers "import _ from 'lodash'; use('lodash')") /\
  Str.occurs_at "lodash" 29 "import _ from 'lodash'; use('lodash')".
Proof.
  split; [vm_compute; reflexivity|].
  apply (proj1 (plain_specifiers_pass
                  "import _ from 'lodash'; use('lodash')" eq_refl)
           29 "lodash").
  vm_compute. tauto.
Qed.

(** C2. The substitution pass of [resolveImports] does not match the
    specifiers as exact literal texts: they enter the pattern unescaped and
    in the order of first occurrence.  With the one import [./a.js], which
    resolves, the pattern is [(./a.js)]; its [.] stands for any code unit,
    so the text [x/a_js] of a string literal, which is no specifier, is
    replaced as well, and by [undefined], there being no location for it.
    With the imports [lodash] and [lodash/fp], which both resolve, the
    pattern is [(lodash)|(lodash/fp)]; at the second import the first
    alternative wins, so what is replaced there is [lodash], by the
    location of [lodash], and [/fp] is left behind it: the verbatim
    occurrence of [lodash/fp] is not replaced with its location. *)
Theorem C2_specifiers_not_matched_literally :
  let h := Fixture.project ["./a.js"] in
  let code := "import a from './a.js'; const k = 'x/a_js'" in
  let g :=
    Fixture.host
      (Fixture.packages
         [("lodash", "file:///proj/node_modules/lodash/lodash.js");
          ("lodash/fp", "file:///proj/node_modules/lodash/fp.js")])
      Fixture.empty_module in
  let code' := "import _ from 'lodash'; import fp from 'lodash/fp'" in
  (specifiers code = ["./a.js"] /\
   imports_pattern (specifiers code) = "(./a.js)" /\
   outcome (resolveSync h "./a.js" None) = Val "file:///proj/a.js" /\
   substitution_hits code = [(15, "./a.js"); (35, "x/a_js")] /\
   ~ (exists s, In s (specifiers code) /\ Str.occurs_at s 35 code) /\
   outcome (resolveImports h (transformModule_fuel h 1) code None)
   = Val (Fulfilled
            "import a from 'file:///proj/a.js'; const k = 'undefined'")) /\
  (specifiers code' = ["lodash"; "lodash/fp"] /\
   imports_pattern (specifiers code') = "(lodash)|(lodash/fp)" /\
   outcome (resolveSync g "lodash" None)
   = Val "file:///proj/node_modules/lodash/lodash.js" /\
   outcome (resolveSync g "lodash/fp" None)
   = Val "file:///proj/node_modules/lodash/fp.js" /\
   Str.occurs_at "lodash/fp" 40 code' /\
   substitution_hits code' = [(15, "lodash"); (40, "lodash")] /\
   outcome (resolveImports g (transformModule_fuel g 1) code' None)
   = Val (Fulfilled
            "import _ from 'file:///proj/node_modules/lodash/lodash.js'; import fp from 'file:///proj/node_modules/lodash/lodash.js/fp'")).
Proof.
  cbv zeta. split.
  - repeat split; try (vm_compute; reflexivity).
    intros [s [Hs [_ Hocc]]].
    vm_compute in Hs. destruct Hs as [<-|[]]. vm_compute in Hocc.
    discriminate.
  - repeat split; try (vm_compute; reflexivity). vm_compute. lia.
Qed.

(** * Further properties of the library *)

(** ** The location codec *)

Lemma slashes_no_backslash (s : string) : Str.includes (slashes s) "\" = false.
Proof.
  induction s as [|c s IH].
  - reflexivity.
  - cbn [slashes Str.includes]. rewrite IH, orb_false_r, prefix_cons, prefix_nil.
    rewrite andb_true_r. destruct (Ascii.eqb c "\"%char) eqn:E; [reflexivity|].
    exact E.
Qed.

Lemma slashes_fixed (s : string) :
  Str.includes s "\" = false -> slashes s = s.
Proof.
  induction s as [|c s IH]; intros H.
  - reflexivity.
  - cbn [Str.includes] in H. apply orb_false_elim in H as [Hc Hs].
    rewrite prefix_cons, prefix_nil, andb_true_r in Hc.
    cbn [slashes]. now rewrite Hc, IH.
Qed.

Lemma slashes_idempotent (s : string) : slashes (slashes s) = slashes s.
Proof. apply slashes_fixed, slashes_no_backslash. Qed.

Lemma prefix_append (s t : string) : String.prefix s (s ++ t) = true.
Proof.
  induction s as [|c s IH].
  - apply prefix_nil.
  - change (String c s ++ t) with (String c (s ++ t)).
    now rewrite prefix_cons, Ascii.eqb_refl, IH.
Qed.

Lemma includes_append (s t : string) : Str.includes (s ++ t) s = true.
Proof. apply startsWith_includes, prefix_append. Qed.

(** X1. [normalizeSlash] keeps the length of a text, leaves no backslash in
    it and changes nothing when applied again. *)
Theorem X1_normalizeSlash_result (str : string) :
  String.length (normalizeSlash str) = String.length str /\
  Str.includes (normalizeSlash str) "\" = false /\
  normalizeSlash (normalizeSlash str) = normalizeSlash str.
Proof.
  rewrite !normalizeSlash_slashes.
  split; [apply length_slashes | split].
  - apply slashes_no_backslash.
  - apply slashes_idempotent.
Qed.

(** X2. A text without backslash is returned by [normalizeSlash] as it
    is. *)
Theorem X2_normalizeSlash_fixed (str : string) :
  Str.includes str "\" = false -> normalizeSlash str = str.
Proof. intros H. rewrite normalizeSlash_slashes. now apply slashes_fixed. Qed.

Lemma X2_normalizeSlash_fixed_witness :
  normalizeSlash "/proj/lib/index.mjs" = "/proj/lib/index.mjs".
Proof. apply X2_normalizeSlash_fixed. reflexivity. Defined.

(** X3. Whatever it is given, [normalizeid] returns a text that carries one
    of the tokens [node:], [data:], [http:], [https:], [file:], and applying
    it again changes nothing. *)
Theorem X3_normalizeid_idempotent (h : Host) (id : StrOrURL) :
  Regex.test PROTOCOL_OR_FILE_RE (normalizeid h id) = true /\
  normalizeid h (Str (normalizeid h id)) = normalizeid h id.
Proof.
  assert (Hfix : forall s,
             Regex.test PROTOCOL_OR_FILE_RE s = true ->
             normalizeid h (Str s) = s).
  { intros s Hs. unfold normalizeid. now rewrite Hs. }
  assert (Htest : Regex.test PROTOCOL_OR_FILE_RE (normalizeid h id) = true).
  { unfold normalizeid.
    set (s := match id with Str s => s | URLObj href => href end).
    destruct (Regex.test PROTOCOL_OR_FILE_RE s) eqn:Hs; [exact Hs|].
    destruct (BUILTIN_MODULES_has h s); rewrite PROTOCOL_OR_FILE_RE_test.
    - rewrite (includes_append "node:" s). reflexivity.
    - change ("file://" ++ normalizeSlash s)
        with ("file:" ++ ("//" ++ normalizeSlash s)).
      rewrite (includes_append "file:" ("//" ++ normalizeSlash s)).
      now rewrite !orb_true_r. }
  split; [exact Htest | now apply Hfix].
Qed.

(** X4. A path [fileURLToPath] returns has no backslash, whether it comes
    from the text itself or from the host's conversion. *)
Theorem X4_fileURLToPath_forward_slashes (h : Host) (id : StrOrURL)
  (path : string) :
  fileURLToPath h id = Normal path -> Str.includes path "\" = false.
Proof.
  unfold fileURLToPath. intros H.
  assert (Hhost : match url_fileURLToPath h id with
                  | Normal p => Normal (normalizeSlash p)
                  | Throw e => Throw e
                  end = Normal path -> Str.includes path "\" = false).
  { destruct (url_fileURLToPath h id) as [p|e]; [|discriminate].
    intros Hp. injection Hp as <-. rewrite normalizeSlash_slashes.
    apply slashes_no_backslash. }
  destruct id as [s|href]; [|exact (Hhost H)].
  destruct (negb (Str.startsWith s "file://")); [|exact (Hhost H)].
  injection H as <-. rewrite normalizeSlash_slashes.
  apply slashes_no_backslash.
Qed.

Lemma X4_fileURLToPath_forward_slashes_witness :
  fileURLToPath (Fixture.project []) (Str "C:\proj\a.mjs")
  = Normal "C:/proj/a.mjs" /\
  Str.includes "C:/proj/a.mjs" "\" = false.
Proof.
  split; [reflexivity|].
  apply (X4_fileURLToPath_forward_slashes (Fixture.project [])
           (Str "C:\proj\a.mjs")).
  reflexivity.
Defined.

(** X5. A path that carries no protocol token and is no builtin name makes
    the round trip through [normalizeid] and [fileURLToPath], up to its
    separators, on a host that converts a file URL of a path back to the
    path. *)
Theorem X5_path_round_trip (h : Host) (path : string) :
  Regex.test PROTOCOL_OR_FILE_RE path = false ->
  BUILTIN_MODULES_has h path = false ->
  url_fileURLToPath h (Str ("file://" ++ slashes path))
  = Normal (slashes path) ->
  normalizeid h (Str path) = "file://" ++ slashes path /\
  fileURLToPath h (Str (normalizeid h (Str path))) = Normal (slashes path).
Proof.
  intros Ht Hb Hhost.
  assert (Hid : normalizeid h (Str path) = "file://" ++ slashes path).
  { unfold normalizeid. now rewrite Ht, Hb, normalizeSlash_slashes. }
  split; [exact Hid|].
  rewrite Hid. unfold fileURLToPath.
  replace (Str.startsWith ("file://" ++ slashes path) "file://") with true
    by (symmetry; apply prefix_append).
  cbn [negb]. rewrite Hhost, normalizeSlash_slashes.
  now rewrite slashes_idempotent.
Qed.

Lemma X5_path_round_trip_witness :
  normalizeid (Fixture.project []) (Str "\proj\lib\a.mjs")
  = "file:///proj/lib/a.mjs" /\
  fileURLToPath (Fixture.project [])
    (Str (normalizeid (Fixture.project []) (Str "\proj\lib\a.mjs")))
  = Normal "/proj/lib/a.mjs".
Proof.
  apply (X5_path_round_trip (Fixture.project []) "\proj\lib\a.mjs");
    reflexivity.
Defined.

(** ** The resolver *)

Lemma attempted_length (soft : string -> bool) (cands : list string) :
  List.length (attempted soft cands) <= List.length cands.
Proof.
  induction cands as [|c cands IH]; simpl; [lia|].
  destruct (soft c); simpl; lia.
Qed.

Lemma resolve_calls_events (url : string) (conds : list string)
  (l : list string) :
  resolve_calls (map (ev url conds) l) = l.
Proof. induction l as [|x l IH]; simpl; [reflexivity | now rewrite IH]. Qed.

(** The host resolutions of a call that passes the two guards. *)
Lemma resolve_calls_reached (h : Host) (id : string) (opts : option Opts) :
  Regex.test PROTOCOL_RE id = false ->
  BUILTIN_MODULES_has h id = false ->
  resolve_calls (trace (resolveSync h id opts))
  = attempted (soft_miss h (base_of h opts) (conditions_of opts))
      (id :: candidates id (extensions_of opts)).
Proof.
  intros Hp Hb.
  destruct (soft_miss h (base_of h opts) (conditions_of opts) id) eqn:Hs.
  - rewrite (resolve_calls_soft h id opts Hp Hb Hs). cbn [attempted].
    now rewrite Hs.
  - cbn [attempted]. rewrite Hs.
    rewrite (resolve_reached h id opts Hp Hb), tryModuleResolve_eq.
    unfold soft_miss in Hs.
    rewrite trace_bind. cbn [trace outcome fst snd].
    destruct (attempt_of h (base_of h opts) (conditions_of opts) id)
      as [r| |e]; try discriminate.
    + rewrite trace_bind. cbn [trace outcome fst snd ret app].
      change (resolve_calls (?e :: ?l)) with (resolve_calls [e] ++ resolve_calls l)%list.
      rewrite canonical_no_calls. reflexivity.
    + reflexivity.
Qed.

(** X6. A builtin module name that carries no protocol token is answered
    by [resolveSync] with the name qualified by [node:], whatever the
    options, without any call to the host. *)
Theorem X6_builtin_qualified (h : Host) (name : string) (opts : option Opts) :
  In name (builtinModules h) ->
  Str.includes name "node:" || Str.includes name "data:"
  || Str.includes name "http:" || Str.includes name "https:" = false ->
  resolveSync h name opts = ([], Val ("node:" ++ name)).
Proof.
  intros Hin Htok. apply resolve_builtin.
  - now rewrite PROTOCOL_RE_test.
  - now apply BUILTIN_MODULES_has_In.
Qed.

Lemma X6_builtin_qualified_witness :
  resolveSync (Fixture.project ["fs"]) "fs"
    (Some {| url := Some "/elsewhere/x.mjs"; conditions := Some ["require"];
             extensions := Some [".ts"] |})
  = ([], Val "node:fs").
Proof.
  apply X6_builtin_qualified; [simpl; tauto | reflexivity].
Defined.

(** X7. [resolveSync] never asks the host for more than one resolution of
    the specifier and two per configured extension. *)
Theorem X7_resolutions_bounded (h : Host) (id : string) (opts : option Opts) :
  List.length (resolve_calls (trace (resolveSync h id opts)))
  <= 1 + 2 * List.length (extensions_of opts).
Proof.
  destruct (Regex.test PROTOCOL_RE id) eqn:Hp.
  { rewrite (resolve_guarded h id opts Hp). simpl. lia. }
  destruct (BUILTIN_MODULES_has h id) eqn:Hb.
  { rewrite (resolve_builtin h id opts Hp Hb). simpl. lia. }
  rewrite (resolve_calls_reached h id opts Hp Hb).
  etransitivity; [apply attempted_length|].
  unfold candidates. cbn [List.length]. rewrite length_app, !length_map. lia.
Qed.

(** X8. With any configured extension list, a call that passes the two
    guards asks the host for the specifier, then for the specifier with each
    extension in the order of the list, then for the specifier with [/index]
    and each extension in that order, and stops after the first attempt
    that is not a soft miss; when the specifier itself resolves, or the list
    is empty, no other attempt follows. *)
Theorem X8_fallback_order_any_extensions (h : Host) (id : string)
  (o : Opts) (exts : list string) :
  Regex.test PROTOCOL_RE id = false ->
  BUILTIN_MODULES_has h id = false ->
  extensions o = Some exts ->
  resolve_calls (trace (resolveSync h id (Some o)))
  = attempted (soft_miss h (base_of h (Some o)) (conditions_of (Some o)))
      (id :: candidates id exts).
Proof.
  intros Hp Hb He. rewrite (resolve_calls_reached h id (Some o) Hp Hb).
  unfold extensions_of. destruct o as [u c e]. cbn [extensions] in He.
  subst e. reflexivity.
Qed.

(** With [.ts] before [.js], [./x.ts] wins over [./x.js]. *)
Lemma X8_fallback_order_any_extensions_witness :
  resolve_calls
    (trace (resolveSync (Fixture.project ["./x.js"; "./x.ts"]) "./x"
              (Some {| url := None; conditions := None;
                       extensions := Some [".ts"; ".js"] |})))
  = ["./x"; "./x.ts"].
Proof.
  exact (X8_fallback_order_any_extensions
           (Fixture.project ["./x.js"; "./x.ts"]) "./x"
           {| url := None; conditions := None;
              extensions := Some [".ts"; ".js"] |}
           [".ts"; ".js"] eq_refl eq_refl eq_refl).
Defined.

(** X9. When [resolveSync] returns a location for a specifier that passes
    the two guards, that location is the file URL of the real path of what
    the host resolved: the first attempt that is not a soft miss resolved,
    its path form was canonicalized once, after all the resolutions, and
    the result converted back. *)
Theorem X9_resolved_is_canonical (h : Host) (id : string) (opts : option Opts)
  (l : list Event) (location : string) :
  Regex.test PROTOCOL_RE id = false ->
  BUILTIN_MODULES_has h id = false ->
  resolveSync h id opts = (l, Val location) ->
  exists r path realPath,
    search h (base_of h opts) (conditions_of opts)
      (id :: candidates id (extensions_of opts)) = Val (Some r) /\
    fileURLToPath h (URLObj r) = Normal path /\
    realpathSync h path = Normal realPath /\
    pathToFileURL h realPath = Normal location /\
    l = (map (ev (base_of h opts) (conditions_of opts))
           (attempted (soft_miss h (base_of h opts) (conditions_of opts))
              (id :: candidates id (extensions_of opts)))
         ++ [EvRealpath path])%list.
Proof.
  intros Hp Hb H.
  rewrite (resolve_reached h id opts Hp Hb), tryModuleResolve_eq,
    try_prefixes_eq in H.
  set (url := base_of h opts) in *. set (conds := conditions_of opts) in *.
  set (cands := candidates id (extensions_of opts)) in *.
  assert (Htail : forall r l0 l1,
             (path <- lift (fileURLToPath h (URLObj r));;
              realPath <- call (EvRealpath path) (realpathSync h path);;
              lift (pathToFileURL h realPath)) = (l1, Val location) ->
             l = (l0 ++ l1)%list ->
             exists path realPath,
               fileURLToPath h (URLObj r) = Normal path /\
               realpathSync h path = Normal realPath /\
               pathToFileURL h realPath = Normal location /\
               l = (l0 ++ [EvRealpath path])%list).
  { intros r l0 l1 Ht ->.
    apply bind_val_inv in Ht as (t1 & path & t2 & Hpath & Ht & ->).
    apply bind_val_inv in Ht as (t3 & rp & t4 & Hrp & Ht & ->).
    unfold lift in Hpath, Ht. unfold call in Hrp.
    destruct (fileURLToPath h (URLObj r)) as [p|] eqn:E1; [|discriminate].
    injection Hpath as <- <-.
    destruct (realpathSync h p) as [q|] eqn:E2; [|discriminate].
    injection Hrp as <- <-.
    destruct (pathToFileURL h q) as [v|] eqn:E3; [|discriminate].
    injection Ht as <- <-.
    exists p, q. cbn [app]. rewrite ?app_nil_r. repeat split; assumption. }
  apply bind_val_inv in H as (t1 & r1 & t2 & H1 & H & ->).
  apply bind_val_inv in H as (t3 & r2 & t4 & H2 & H & ->).
  injection H1 as <- H1. cbn [search attempted]. unfold soft_miss.
  destruct (attempt_of h url conds id) as [r| |e]; try discriminate.
  - injection H1 as <-. injection H2 as <- <-.
    destruct (Htail r [ev url conds id] t4 H eq_refl)
      as (path & rp & Ha & Hb' & Hc & ->).
    exists r, path, rp. repeat split; assumption.
  - injection H1 as <-. injection H2 as <- H2.
    destruct r2 as [r|]; [|discriminate].
    destruct (Htail r (ev url conds id
                       :: map (ev url conds)
                            (attempted (soft_miss h url conds) cands)) t4 H
                eq_refl)
      as (path & rp & Ha & Hb' & Hc & ->).
    exists r, path, rp. repeat split; assumption.
Qed.

Lemma X9_resolved_is_canonical_witness :
  exists r path realPath,
    search (Fixture.project ["./x/index.js"]) "file:///proj" ["node"; "import"]
      ("./x" :: candidates "./x" DEFAULT_EXTENSIONS) = Val (Some r) /\
    fileURLToPath (Fixture.project ["./x/index.js"]) (URLObj r) = Normal path /\
    realpathSync (Fixture.project ["./x/index.js"]) path = Normal realPath /\
    pathToFileURL (Fixture.project ["./x/index.js"]) realPath
    = Normal "file:///proj/x/index.js" /\
    trace (resolveSync (Fixture.project ["./x/index.js"]) "./x" None)
    = (map (ev "file:///proj" ["node"; "import"])
         ["./x"; "./x.mjs"; "./x.cjs"; "./x.js"; "./x.json";
          "./x/index.mjs"; "./x/index.cjs"; "./x/index.js"]
       ++ [EvRealpath path])%list.
Proof.
  exact (X9_resolved_is_canonical (Fixture.project ["./x/index.js"]) "./x"
           None _ "file:///proj/x/index.js" eq_refl eq_refl eq_refl).
Defined.

(** X10. For a specifier that carries a protocol token and does not start
    with [file://], [resolvePathSync] returns no path: it returns the
    specifier itself with its backslashes turned into slashes, without any
    call to the host. *)
Theorem X10_resolvePathSync_protocol (h : Host) (id : string)
  (opts : option Opts) :
  Regex.test PROTOCOL_RE id = true ->
  Str.startsWith id "file://" = false ->
  resolvePathSync h id opts = ([], Val (slashes id)).
Proof.
  intros Hp Hf. unfold resolvePathSync.
  rewrite (resolve_guarded h id opts Hp). cbn [bind].
  unfold fileURLToPath. rewrite Hf. cbn [negb lift app].
  now rewrite normalizeSlash_slashes.
Qed.

Lemma X10_resolvePathSync_protocol_witness :
  resolvePathSync (Fixture.project []) "node:fs" None = ([], Val "node:fs").
Proof.
  apply (X10_resolvePathSync_protocol (Fixture.project []) "node:fs" None);
    reflexivity.
Defined.

(** X11. The data URL [toDataURL] makes of any text is returned unchanged
    by [normalizeid] and by [resolveSync], which calls no host primitive for
    it: an import rewritten to a data URL stays as it is when it is resolved
    again. *)
Theorem X11_data_url_stable (h : Host) (code : string) (opts : option Opts) :
  normalizeid h (Str (toDataURL code)) = toDataURL code /\
  resolveSync h (toDataURL code) opts = ([], Val (toDataURL code)).
Proof.
  assert (Hinc : Str.includes (toDataURL code) "data:" = true).
  { unfold toDataURL.
    change ("data:text/javascript;base64," ++ Base64.encode code)
      with ("data:" ++ ("text/javascript;base64," ++ Base64.encode code)).
    apply includes_append. }
  split.
  - unfold normalizeid. rewrite PROTOCOL_OR_FILE_RE_test, Hinc.
    now rewrite !orb_true_r.
  - apply resolve_guarded. rewrite PROTOCOL_RE_test, Hinc.
    now rewrite !orb_true_r.
Qed.

(** ** Sources without imports *)

Section NoImports.

Import Regex.

Lemma rmatch_whole (r : regex) :
  forall d fuel st st', In st' (rmatch d r fuel st) -> whole st' = whole st.
Proof.
  assert (Hloop : forall (step : state -> list state),
             (forall st st', In st' (step st) -> whole st' = whole st) ->
             forall n st st', In st' (star_loop step n st) -> whole st' = whole st).
  { intros step Hstep. induction n as [|k IH]; intros st st' Hin.
    - destruct Hin as [<-|[]]. reflexivity.
    - cbn [star_loop] in Hin. apply in_app_or in Hin as [Hin|[<-|[]]].
      + apply in_flat_map in Hin as [st1 [H1 Hin]].
        destruct (Nat.eqb (index_of st1) (index_of st)); [contradiction|].
        rewrite (IH _ _ Hin). now apply Hstep.
      + reflexivity. }
  induction r as [|cs|r1 IH1 r2 IH2|r1 IH1 r2 IH2|r1 IH1|r1 IH1|r1 IH1|r1 IH1];
    intros d fuel st st' Hin; cbn [rmatch] in Hin.
  - destruct Hin as [<-|[]]. reflexivity.
  - destruct st as [b a]. unfold step_char in Hin. cbn [fst snd] in Hin.
    destruct d.
    + destruct a as [|c a]; [contradiction|].
      destruct (cset_mem cs c); [|contradiction].
      destruct Hin as [<-|[]]. reflexivity.
    + destruct b as [|c b]; [contradiction|].
      destruct (cset_mem cs c); [|contradiction].
      destruct Hin as [<-|[]]. reflexivity.
  - destruct d; apply in_flat_map in Hin as [st1 [H1 H2]].
    + rewrite (IH2 _ _ _ _ H2). exact (IH1 _ _ _ _ H1).
    + rewrite (IH1 _ _ _ _ H2). exact (IH2 _ _ _ _ H1).
  - apply in_app_or in Hin as [Hin|Hin]; eauto.
  - exact (Hloop _ (IH1 d fuel) _ _ _ Hin).
  - eauto.
  - destruct (rmatch Forward r1 fuel st); [contradiction|].
    destruct Hin as [<-|[]]. reflexivity.
  - destruct (rmatch Backward r1 fuel st); [contradiction|].
    destruct Hin as [<-|[]]. reflexivity.
Qed.

(** A literal matched backward is the text right before the index. *)
Lemma rmatch_backward_lit (s : string) :
  forall fuel st st',
    In st' (rmatch Backward (lit s) fuel st) -> snd st' = s ++ snd st.
Proof.
  induction s as [|c s IH]; intros fuel st st' Hin.
  - destruct Hin as [<-|[]]. reflexivity.
  - cbn [lit rmatch] in Hin. apply in_flat_map in Hin as [st1 [H1 Hin]].
    apply IH in H1. cbn [rmatch] in Hin. unfold step_char in Hin.
    destruct (fst st1) as [|d b]; [contradiction|].
    destruct (cset_mem (CLit c) d) eqn:E; [|contradiction].
    destruct Hin as [<-|[]]. cbn [snd cset_mem] in *.
    apply Ascii.eqb_eq in E. subst d. now rewrite H1.
Qed.

Lemma includes_rev_onto (b a s : string) :
  Str.includes a s = true -> Str.includes (Str.rev_onto b a) s = true.
Proof.
  revert a; induction b as [|c b IH]; intros a H.
  - exact H.
  - cbn [Str.rev_onto]. apply IH. cbn [Str.includes]. now rewrite H, orb_true_r.
Qed.

Lemma includes_whole_prefix (b a s : string) :
  String.prefix s a = true -> Str.includes (whole (b, a)) s = true.
Proof.
  intros H. unfold whole. cbn [fst snd]. apply includes_rev_onto.
  now apply startsWith_includes.
Qed.

Lemma flat_map_nil {A B} (f : A -> list B) (l : list A) :
  (forall a, In a l -> f a = []) -> flat_map f l = [].
Proof.
  induction l as [|a l IH]; intros H; simpl; [reflexivity|].
  rewrite (H a (or_introl eq_refl)), IH; [reflexivity|].
  intros x Hx. apply H. now right.
Qed.

(** A literal that the text does not contain matches nowhere backward. *)
Lemma rmatch_backward_lit_absent (s : string) (fuel : nat) (st : state) :
  Str.includes (whole st) s = false -> rmatch Backward (lit s) fuel st = [].
Proof.
  intros H. destruct (rmatch Backward (lit s) fuel st) as [|st' l] eqn:E;
    [reflexivity|].
  assert (Hin : In st' (rmatch Backward (lit s) fuel st))
    by (rewrite E; now left).
  pose proof (rmatch_whole _ _ _ _ _ Hin) as Hw.
  apply rmatch_backward_lit in Hin.
  rewrite <- Hw in H. destruct st' as [b' a']. cbn [snd] in Hin.
  rewrite (includes_whole_prefix b' a' s) in H; [discriminate|].
  rewrite Hin. apply prefix_append.
Qed.

Lemma backward_seq_nil (r1 r2 : regex) (fuel : nat) (st : state) :
  rmatch Backward r2 fuel st = [] ->
  rmatch Backward (RSeq r1 r2) fuel st = [].
Proof. intros H. cbn [rmatch]. now rewrite H. Qed.

Lemma backward_from_absent (s : string) (after : regex)
  (fuel : nat) (st : state) :
  Str.includes (whole st) s = false ->
  rmatch Backward (RSeq (lit s) after) fuel st = [].
Proof.
  intros H. cbn [rmatch]. apply flat_map_nil. intros st1 H1.
  rewrite <- (rmatch_whole _ _ _ _ _ H1) in H.
  exact (rmatch_backward_lit_absent s fuel st1 H).
Qed.

Lemma lookbehind_fails (behind rest : regex) (fuel : nat) (st : state) :
  rmatch Backward behind fuel st = [] ->
  rmatch Forward (RSeq (RLookbehind behind) rest) fuel st = [].
Proof. intros H. cbn [rmatch]. now rewrite H. Qed.

(** Each alternative of [ESM_IMPORT_RE] looks behind for [ from ] or for
    [import]: in a text with neither, it matches nowhere. *)
Lemma ESM_IMPORT_RE_nowhere (st : state) :
  Str.includes (whole st) "import" = false ->
  Str.includes (whole st) " from " = false ->
  match_here ESM_IMPORT_RE st = None.
Proof.
  intros Hi Hf. unfold match_here, ESM_IMPORT_RE, seq.
  cbn [fold_right].
  change (rmatch Forward (RAlt ?a (RAlt ?b (RAlt ?c ?d))) ?n ?s)
    with (rmatch Forward a n s ++ rmatch Forward b n s
          ++ rmatch Forward c n s ++ rmatch Forward d n s)%list.
  rewrite !lookbehind_fails;
    [reflexivity | ..];
    repeat first [ apply backward_from_absent; assumption
                 | apply backward_seq_nil ].
Qed.

Lemma segments_nowhere (r : regex) (text : string) :
  (forall st, whole st = text -> match_here r st = None) ->
  forall b a, whole (b, a) = text ->
    segments r 0 b a = map Keep (list_ascii_of_string a).
Proof.
  intros Hnone b a. revert b. induction a as [|c a IH]; intros b Hw.
  - cbn [segments]. now rewrite (Hnone _ Hw).
  - cbn [segments]. rewrite (Hnone _ Hw). cbn [list_ascii_of_string map].
    f_equal. apply IH. exact Hw.
Qed.

Lemma includes_suffix (b a s : string) :
  Str.includes (whole (b, a)) s = false -> String.prefix s a = false.
Proof.
  intros H. destruct (String.prefix s a) eqn:E; [|reflexivity].
  now rewrite (includes_whole_prefix b a s E) in H.
Qed.

Lemma match_here_lit (s : string) (b a : string) :
  match_here (lit s) (b, a)
  = if String.prefix s a then Some (String.length s) else None.
Proof.
  unfold match_here. rewrite rmatch_lit.
  destruct (String.prefix s a); [|reflexivity].
  unfold index_of. cbn [fst]. rewrite length_rev_onto. f_equal. lia.
Qed.

Lemma IMPORT_META_URL_RE_nowhere (st : state) :
  Str.includes (whole st) "import" = false ->
  match_here IMPORT_META_URL_RE st = None.
Proof.
  intros Hi. destruct st as [b a]. unfold IMPORT_META_URL_RE.
  rewrite match_here_lit.
  change "import.meta.url" with ("import" ++ ".meta.url").
  now rewrite prefix_app, (includes_suffix b a "import" Hi).
Qed.

End NoImports.

Lemma no_specifiers (code : string) :
  Str.includes code "import" = false ->
  Str.includes code " from " = false ->
  Regex.matchAll0 ESM_IMPORT_RE code = [].
Proof.
  intros Hi Hf. unfold Regex.matchAll0, Regex.hits.
  rewrite (segments_nowhere ESM_IMPORT_RE code).
  - now rewrite hits_of_keep.
  - intros st Hw. apply ESM_IMPORT_RE_nowhere; now rewrite Hw.
  - reflexivity.
Qed.

(** X12. A source text that contains neither [import] nor [ from ] goes
    through [transformModule] unchanged and without any call to the host,
    whatever the options, unless their url ends in [.json]. *)
Theorem X12_transformModule_without_imports (h : Host) (code : string)
  (o : Opts) :
  Str.includes code "import" = false ->
  Str.includes code " from " = false ->
  match url o with
  | Some u => Str.endsWith u ".json"
  | None => false
  end = false ->
  transformModule h code (Some o) = ([], Val (Fulfilled code)).
Proof.
  intros Hi Hf Hj. unfold transformModule.
  rewrite transformModule_fuel_S. unfold resolveImports.
  rewrite (no_specifiers code Hi Hf). cbn [get_url bind ret async await app].
  destruct (url o) as [[|c u]|]; cbn [bind ret async await app];
    try reflexivity.
  rewrite Hj. cbn [bind ret async await app].
  unfold Regex.replace_str.
  rewrite (segments_nowhere IMPORT_META_URL_RE code).
  - now rewrite render_keep.
  - intros st Hw. apply IMPORT_META_URL_RE_nowhere. now rewrite Hw.
  - reflexivity.
Qed.

Lemma X12_transformModule_without_imports_witness :
  transformModule (Fixture.project [])
    "export const answer = 42; export default function () { return answer }"
    (Some {| url := Some "file:///proj/answer.mjs"; conditions := None;
             extensions := None |})
  = ([], Val (Fulfilled
       "export const answer = 42; export default function () { return answer }")).
Proof.
  apply X12_transformModule_without_imports; reflexivity.
Defined.

(** ** The resolutions of the import rewriter *)

Lemma unique_onto_fresh (l seen : list string) :
  NoDup (Str.unique_onto seen l) /\
  forall x, In x (Str.unique_onto seen l) -> ~ In x seen.
Proof.
  revert seen; induction l as [|x l IH]; intros seen.
  - split; [constructor | intros y []].
  - cbn [Str.unique_onto].
    destruct (existsb (String.eqb x) seen) eqn:E; [apply IH|].
    destruct (IH (x :: seen)) as [Hnd Hfresh]. split.
    + constructor; [|exact Hnd].
      intros Hin. apply (Hfresh x Hin). now left.
    + intros y [<-|Hy].
      * intros Hin. assert (existsb (String.eqb x) seen = true).
        { apply existsb_exists. exists x. split; [exact Hin|].
          apply String.eqb_refl. }
        congruence.
      * intros Hin. apply (Hfresh y Hy). now right.
Qed.

Lemma trace_async {A} (m : M A) : trace (async m) = trace m.
Proof. destruct m as [l [a|e|w]]; reflexivity. Qed.

Lemma trace_bind_ret {A B} (m : M A) (g : A -> B) :
  trace (bind m (fun a => ret (g a))) = trace m.
Proof. destruct m as [l [a|e|w]]; simpl; now rewrite ?app_nil_r. Qed.

Lemma resolve_calls_flat_map {A} (f : A -> list Event) (l : list A) :
  resolve_calls (flat_map f l) = flat_map (fun a => resolve_calls (f a)) l.
Proof.
  induction l as [|a l IH]; simpl; [reflexivity|].
  now rewrite resolve_calls_app, IH.
Qed.

Section RewriterCalls.

Variable h : Host.
Variable opts : option Opts.

Lemma resolve_trace (id : string) :
  exists p, resolve h id opts = (trace (resolveSync h id opts), Val p).
Proof.
  destruct (pcall_settles h (resolveSync h id opts)
              (resolveSync_no_abort h id opts)) as [p [Hp _]].
  now exists p.
Qed.

(** All the resolutions are started, in the order of the array. *)
Lemma started_phase (ids : list string) :
  exists started,
    map_M (fun id => p <- resolve h id opts;; ret (id, p)) ids
    = (flat_map (fun id => trace (resolveSync h id opts)) ids, Val started).
Proof.
  induction ids as [|id ids [started IH]].
  - now exists [].
  - destruct (resolve_trace id) as [p Hp].
    exists ((id, p) :: started). cbn [map_M flat_map].
    rewrite Hp, IH. cbn [bind ret]. now rewrite !app_nil_r.
Qed.

(** The callback of the rewriter asks for no resolution after the one it
    awaits: at most, it reads the JSON file it resolved. *)
Lemma resolve_import_no_calls (fuel : nat) (st : string * Promise string) :
  resolve_calls
    (trace (resolve_import h (transformModule_fuel h (S fuel)) st)) = [].
Proof.
  unfold resolve_import. rewrite trace_async, trace_bind.
  destruct (snd st) as [u|e]; cbn [await trace outcome ret throw fst snd app];
    [|reflexivity].
  rewrite trace_bind_ret.
  destruct (Str.endsWith u ".json") eqn:E; [|reflexivity].
  rewrite trace_bind, resolve_calls_app.
  assert (Hload : resolve_calls (trace (p <- loadURL h u;; await p)) = []).
  { unfold loadURL.
    generalize (fileURLToPath h (Str u)). intros [path|e]; simpl;
      [destruct (readFile h path) |]; reflexivity. }
  rewrite Hload. cbn [app].
  destruct (outcome (p <- loadURL h u;; await p)) as [code|e|w];
    [|reflexivity ..].
  rewrite trace_bind_ret.
  rewrite (transformModule_fuel_json h fuel code
             {| url := Some u; conditions := None; extensions := None |}
             u eq_refl E).
  reflexivity.
Qed.

Lemma map_M_no_calls {A B} (f : A -> M B) (l : list A) :
  (forall a, resolve_calls (trace (f a)) = []) ->
  resolve_calls (trace (map_M f l)) = [].
Proof.
  intros H. induction l as [|a l IH]; [reflexivity|].
  cbn [map_M]. rewrite trace_bind, resolve_calls_app, H. cbn [app].
  destruct (outcome (f a)); [|reflexivity ..].
  rewrite trace_bind, resolve_calls_app, IH.
  destruct (outcome (map_M f l)); reflexivity.
Qed.

Lemma new_RegExp_trace (source : string) : trace (new_RegExp h source) = [].
Proof.
  unfold new_RegExp. destruct (Regex.regexp_new source); reflexivity.
Qed.

Lemma resolveImports_calls (fuel : nat) (code : string) :
  resolve_calls
    (trace (resolveImports h (transformModule_fuel h (S fuel)) code opts))
  = flat_map (fun id => resolve_calls (trace (resolveSync h id opts)))
      (specifiers code).
Proof.
  unfold resolveImports, specifiers. rewrite trace_async.
  destruct (Regex.matchAll0 ESM_IMPORT_RE code) as [|i imports];
    [reflexivity|].
  destruct (started_phase (Str.unique (i :: imports))) as [started Hs].
  rewrite trace_bind, Hs. cbn [trace outcome fst snd].
  rewrite resolve_calls_app, resolve_calls_flat_map.
  rewrite trace_bind, resolve_calls_app.
  rewrite (map_M_no_calls _ started (resolve_import_no_calls fuel)).
  cbn [app].
  destruct (outcome (map_M (resolve_import h (transformModule_fuel h (S fuel)))
                       started)) as [settled|e|w];
    [|now rewrite app_nil_r ..].
  destruct (first_rejection (map snd started)); [now rewrite app_nil_r|].
  destruct (first_rejection settled); [now rewrite app_nil_r|].
  rewrite trace_bind, new_RegExp_trace. cbn [app].
  destruct (outcome (new_RegExp h _)); now rewrite app_nil_r.
Qed.

End RewriterCalls.

(** X13. The specifiers [resolveImports] resolves are pairwise distinct, and
    the host resolutions it causes are those of resolving each of them once,
    in the order of their first occurrence in the source, however often a
    specifier occurs; nothing else is asked to be resolved, whether the
    rewriting succeeds or not. *)
Theorem X13_each_specifier_resolved_once (h : Host) (code : string)
  (opts : option Opts) :
  NoDup (specifiers code) /\
  resolve_calls
    (trace (resolveImports h (transformModule_fuel h 1) code opts))
  = flat_map (fun id => resolve_calls (trace (resolveSync h id opts)))
      (specifiers code).
Proof.
  split.
  - exact (proj1 (unique_onto_fresh _ [])).
  - apply resolveImports_calls.
Qed.

(** ** JSON modules *)

(** X14. An import that resolved to a location ending in [.json] is mapped
    by the rewriter to the data URL of [export default ] followed by the text
    of the file, which is read once; the file is not resolved or transformed
    any further. *)
Theorem X14_json_import_inlined (h : Host) (id location path text : string) :
  Str.endsWith location ".json" = true ->
  fileURLToPath h (Str location) = Normal path ->
  readFile h path = Normal text ->
  resolve_import h (transformModule_fuel h 1) (id, Fulfilled location)
  = ([EvReadFile path],
     Val (Fulfilled (id, toDataURL ("export default " ++ text)))).
Proof.
  intros Hj Hpath Hread. unfold resolve_import.
  cbn [snd fst await bind ret]. rewrite Hj.
  unfold loadURL. rewrite Hpath. cbn [lift bind]. unfold call. rewrite Hread.
  cbn [lift bind async await ret app].
  rewrite (transformModule_fuel_json h 0 text
             {| url := Some location; conditions := None; extensions := None |}
             location eq_refl Hj).
  reflexivity.
Qed.

Lemma X14_json_import_inlined_witness :
  resolve_import (Fixture.project ["./data.json"])
    (transformModule_fuel (Fixture.project ["./data.json"]) 1)
    ("./data", Fulfilled "file:///proj/data.json")
  = ([EvReadFile "/proj/data.json"],
     Val (Fulfilled ("./data", toDataURL "export default {}"))).
Proof.
  exact (X14_json_import_inlined (Fixture.project ["./data.json"]) "./data"
           "file:///proj/data.json" "/proj/data.json" "{}"
           eq_refl eq_refl eq_refl).
Defined.

(** X15. When a specifier resolves to a location ending in [.json] whose
    file can be read, [loadModule] reads the file once and imports one unit,
    the data URL of [export default ] followed by the text of the file; its
    promise is fulfilled with the namespace of that unit. *)
Theorem X15_loadModule_json (h : Host) (id : string) (opts : option Opts)
  (l : list Event) (location path text : string) (ns : Namespace) :
  resolve h id (Some (match opts with Some o => o | None => no_opts end))
  = (l, Val (Fulfilled location)) ->
  Str.endsWith location ".json" = true ->
  fileURLToPath h (Str location) = Normal path ->
  readFile h path = Normal text ->
  dynamic_import h (toDataURL ("export default " ++ text)) = Normal ns ->
  loadModule h id opts
  = ((l ++ [EvReadFile path;
            EvImport (toDataURL ("export default " ++ text))])%list,
     Val (Fulfilled ns)).
Proof.
  intros Hres Hj Hpath Hread Himport. unfold loadModule.
  rewrite Hres. cbn [bind await ret].
  unfold loadURL. rewrite Hpath. cbn [lift bind await ret].
  unfold call at 1. rewrite Hread. cbn [lift bind async await ret app].
  unfold evalModule, transformModule.
  rewrite (transformModule_fuel_json h 1 text
             {| url := Some location;
                conditions :=
                  conditions (match opts with Some o => o | None => no_opts end);
                extensions :=
                  extensions (match opts with Some o => o | None => no_opts end) |}
             location eq_refl Hj).
  cbn [bind await ret]. unfold call. rewrite Himport.
  cbn [lift bind async await ret app try_catch].
  now rewrite !app_nil_r.
Qed.

Lemma X15_loadModule_json_witness :
  loadModule (Fixture.project ["./data.json"]) "./data" None
  = ((map (ev "file:///proj" ["node"; "import"])
        ["./data"; "./data.mjs"; "./data.cjs"; "./data.js"; "./data.json"]
      ++ [EvRealpath "/proj/data.json"]
      ++ [EvReadFile "/proj/data.json";
          EvImport (toDataURL "export default {}")])%list,
     Val (Fulfilled (ModuleNamespace []))).
Proof.
  exact (X15_loadModule_json (Fixture.project ["./data.json"]) "./data" None
           (map (ev "file:///proj" ["node"; "import"])
              ["./data"; "./data.mjs"; "./data.cjs"; "./data.js";
               "./data.json"]
            ++ [EvRealpath "/proj/data.json"])%list
           "file:///proj/data.json" "/proj/data.json" "{}"
           (ModuleNamespace [])
           eq_refl eq_refl eq_refl eq_refl eq_refl).
Defined.

(** ** The stack of a failed unit *)

Lemma substitution_plain (template matched before after : string) :
  Str.includes template "$" = false ->
  Regex.substitution template matched before after = template.
Proof.
  induction template as [|c t IH]; intros H; [reflexivity|].
  cbn [Str.includes] in H. apply orb_false_elim in H as [Hc Ht].
  rewrite prefix_cons, prefix_nil, andb_true_r in Hc.
  rewrite <- (IH Ht) at 2.
  destruct c as [[] [] [] [] [] [] [] []]; try reflexivity; discriminate Hc.
Qed.

Lemma regexp_new_plain (source : string) :
  Regex.plain source = true ->
  Regex.regexp_new source = Regex.Parsed (Regex.lit source).
Proof.
  intros H. unfold Regex.regexp_new.
  rewrite <- (append_nil_r source) at 1.
  rewrite (PatternOfPlainText.parse_plain source "" _ [] H).
  cbn [Regex.parse]. now rewrite PatternOfPlainText.close_push_chars.
Qed.

(** The global replacement of a literal pattern is [replace_all]. *)
Lemma render_lit (needle by_text : string) (text : string) :
  needle <> "" ->
  forall skip b,
    Regex.render (Regex.segments (Regex.lit needle) skip b text)
      (fun _ _ => by_text)
    = replace_all needle by_text skip text.
Proof.
  intros Hne. induction text as [|c text IH]; intros skip b.
  - destruct skip as [|k]; [|reflexivity].
    cbn [Regex.segments replace_all]. rewrite match_here_lit.
    destruct needle; [congruence | reflexivity].
  - destruct skip as [|k]; cbn [Regex.segments replace_all]; [|apply IH].
    rewrite match_here_lit.
    destruct (String.prefix needle (String c text)) eqn:E.
    + destruct needle as [|d needle']; [congruence|].
      cbn [String.length Nat.sub].
      change (Regex.render (Regex.Hit ?p ?m :: ?l) ?f)
        with (f p m ++ Regex.render l f).
      rewrite IH. now rewrite Nat.sub_0_r.
    + change (Regex.render (Regex.Keep ?k :: ?l) ?f)
        with (String k (Regex.render l f)).
      now rewrite IH.
Qed.

Lemma replace_str_lit (needle template text : string) :
  needle <> "" -> Str.includes template "$" = false ->
  Regex.replace_str (Regex.lit needle) text template
  = replace_all needle template 0 text.
Proof.
  intros Hne Ht. unfold Regex.replace_str.
  rewrite (render_ext _ _ (fun _ _ => template)).
  - now apply render_lit.
  - intros p m. now apply substitution_plain.
Qed.

Lemma plain_every (s : string) : Regex.plain s = every Regex.plain_char s.
Proof. induction s as [|c s IH]; simpl; [reflexivity | now rewrite IH]. Qed.

Lemma every_app (p : ascii -> bool) (s t : string) :
  every p (s ++ t) = every p s && every p t.
Proof.
  induction s as [|c s IH]; simpl; [reflexivity|].
  now rewrite IH, andb_assoc.
Qed.

Lemma digit_digit_or_plus (n : nat) : digit_or_plus (Base64.digit n) = true.
Proof.
  do 64 (destruct n as [|n]; [reflexivity|]). reflexivity.
Qed.

Lemma sextets3_digits (a b c : ascii) :
  every digit_or_plus (Base64.sextets3 a b c) = true.
Proof.
  unfold Base64.sextets3. cbn [every]. now rewrite !digit_digit_or_plus.
Qed.

Lemma every_take (p : ascii -> bool) (n : nat) (s : string) :
  every p s = true -> every p (Str.take n s) = true.
Proof.
  revert n; induction s as [|c s IH]; intros [|n] H; try reflexivity.
  cbn [every Str.take] in *. apply andb_prop in H as [-> H]. now apply IH.
Qed.

Lemma encode_digits (s : string) :
  every digit_or_plus (Base64.encode s) = true.
Proof.
  assert (H : forall n s, String.length s <= n ->
                every digit_or_plus (Base64.encode s) = true).
  { induction n as [|n IH]; intros t Hlen.
    - destruct t; [reflexivity | simpl in Hlen; lia].
    - destruct t as [|a [|b [|c rest]]].
      + reflexivity.
      + cbn [Base64.encode]. rewrite every_app.
        now rewrite (every_take _ 2 _ (sextets3_digits a zero zero)).
      + cbn [Base64.encode]. rewrite every_app.
        now rewrite (every_take _ 3 _ (sextets3_digits a b zero)).
      + cbn [Base64.encode]. rewrite every_app, sextets3_digits.
        apply IH. simpl in Hlen. lia. }
  exact (H (String.length s) s (le_n _)).
Qed.

Lemma every_without_plus (s : string) :
  every digit_or_plus s = true -> Str.includes s "+" = false ->
  Regex.plain s = true.
Proof.
  induction s as [|c s IH]; intros He Hi; [reflexivity|].
  cbn [every] in He. apply andb_prop in He as [Hc He].
  cbn [Str.includes] in Hi. apply orb_false_elim in Hi as [Hp Hi].
  rewrite prefix_cons, prefix_nil, andb_true_r in Hp.
  cbn [Regex.plain]. rewrite (IH He Hi), andb_true_r.
  unfold digit_or_plus in Hc. rewrite Hp, orb_false_r in Hc. exact Hc.
Qed.

Lemma toDataURL_plain (code : string) :
  Str.includes (Base64.encode code) "+" = false ->
  Regex.plain (toDataURL code) = true /\ toDataURL code <> "".
Proof.
  intros H. split; [|discriminate].
  unfold toDataURL. rewrite plain_every, every_app.
  rewrite <- (plain_every (Base64.encode code)).
  now rewrite (every_without_plus _ (encode_digits code) H).
Qed.

(** X16. When the import of the unit fails, its data URL has no [+] among
    its base64 digits and the logical location (the url of the options, or
    [_mlly_eval_.mjs]) has no [$], [evalModule] rejects with the failure
    of the import, its name, message and code untouched and its stack with
    the data URL replaced by the logical location wherever it occurs, from
    left to right. *)
Theorem X16_stack_names_location (h : Host) (code : string)
  (opts : option Opts) (l : list Event) (transformed : string)
  (err : JsError) :
  let o := match opts with Some o => o | None => no_opts end in
  let location :=
    match url o with
    | Some (String c u) => String c u
    | _ => "_mlly_eval_.mjs"
    end in
  transformModule h code (Some o) = (l, Val (Fulfilled transformed)) ->
  dynamic_import h (toDataURL transformed) = Throw err ->
  Str.includes (Base64.encode transformed) "+" = false ->
  Str.includes location "$" = false ->
  evalModule h code opts
  = ((l ++ [EvImport (toDataURL transformed)])%list,
     Val (Rejected
            {| err_name := err_name err;
               err_message := err_message err;
               err_code := err_code err;
               err_stack :=
                 replace_all (toDataURL transformed) location 0
                   (err_stack err);
               err_toString := err_toString err |})).
Proof.
  intros o location Ht Himport Hplus Hloc.
  destruct (toDataURL_plain transformed Hplus) as [Hplain Hne].
  unfold evalModule. fold o. rewrite Ht. cbn [bind await ret].
  unfold call. rewrite Himport. cbn [try_catch].
  unfold new_RegExp. rewrite (regexp_new_plain _ Hplain).
  cbn [bind ret throw async app]. fold location.
  rewrite (replace_str_lit _ location _ Hne Hloc).
  now rewrite !app_nil_r.
Qed.

Lemma X16_stack_names_location_witness :
  evalModule (Fixture.host (Fixture.files []) Fixture.failing_module)
    "throw new Error('boom')"
    (Some {| url := Some "/proj/boom.mjs"; conditions := None;
             extensions := None |})
  = ([EvImport (toDataURL "throw new Error('boom')")],
     Val (Rejected
            {| err_name := "Error";
               err_message := "boom";
               err_code := None;
               err_stack := "Error: boom" ++ String "010"%char ""
                            ++ "    at /proj/boom.mjs:1:12";
               err_toString := "Error: boom" |})).
Proof.
  exact (X16_stack_names_location
           (Fixture.host (Fixture.files []) Fixture.failing_module)
           "throw new Error('boom')"
           (Some {| url := Some "/proj/boom.mjs"; conditions := None;
                    extensions := None |})
           [] "throw new Error('boom')"
           (match Fixture.failing_module (toDataURL "throw new Error('boom')")
            with
            | Throw e => e
            | Normal _ => Fixture.not_found ""
            end)
           eq_refl eq_refl eq_refl eq_refl).
Defined.

(** ** What is imported *)

Lemma import_calls_app (l1 l2 : list Event) :
  import_calls (l1 ++ l2) = (import_calls l1 ++ import_calls l2)%list.
Proof. unfold import_calls. apply flat_map_app. Qed.

Lemma import_calls_events (url : string) (conds : list string)
  (l : list string) :
  import_calls (map (ev url conds) l) = [].
Proof. induction l as [|x l IH]; simpl; [reflexivity | exact IH]. Qed.

Lemma map_M_no_imports {A B} (f : A -> M B) (l : list A) :
  (forall a, import_calls (trace (f a)) = []) ->
  import_calls (trace (map_M f l)) = [].
Proof.
  intros H. induction l as [|a l IH]; [reflexivity|].
  cbn [map_M]. rewrite trace_bind, import_calls_app, H. cbn [app].
  destruct (outcome (f a)); [|reflexivity ..].
  rewrite trace_bind, import_calls_app, IH.
  destruct (outcome (map_M f l)); reflexivity.
Qed.

Section NoImport.

Variable h : Host.

Lemma canonical_no_imports (r : string) :
  import_calls
    (trace (path <- lift (fileURLToPath h (URLObj r));;
            realPath <- call (EvRealpath path) (realpathSync h path);;
            lift (pathToFileURL h realPath)))
  = [].
Proof.
  generalize (fileURLToPath h (URLObj r)). intros [path|e]; simpl.
  - destruct (realpathSync h path) as [rp|e]; simpl.
    + destruct (pathToFileURL h rp); reflexivity.
    + reflexivity.
  - reflexivity.
Qed.

Lemma resolveSync_no_imports (id : string) (opts : option Opts) :
  import_calls (trace (resolveSync h id opts)) = [].
Proof.
  destruct (Regex.test PROTOCOL_RE id) eqn:Hp.
  { now rewrite (resolve_guarded h id opts Hp). }
  destruct (BUILTIN_MODULES_has h id) eqn:Hb.
  { now rewrite (resolve_builtin h id opts Hp Hb). }
  rewrite (resolve_reached h id opts Hp Hb), tryModuleResolve_eq.
  rewrite trace_bind. cbn [trace outcome fst snd].
  change (import_calls ([?e] ++ ?l)) with (import_calls l).
  destruct (attempt_of h (base_of h opts) (conditions_of opts) id)
    as [r| |e]; [| |reflexivity].
  - rewrite trace_bind. cbn [trace outcome fst snd ret app].
    apply canonical_no_imports.
  - rewrite try_prefixes_eq, trace_bind. cbn [trace outcome fst snd].
    rewrite import_calls_app, import_calls_events. cbn [app].
    destruct (search h _ _ _) as [[r|]|e|w]; try reflexivity.
    apply canonical_no_imports.
Qed.

Lemma started_no_imports (opts : option Opts) (ids : list string) :
  import_calls (flat_map (fun id => trace (resolveSync h id opts)) ids) = [].
Proof.
  induction ids as [|x l IH]; [reflexivity|].
  cbn [flat_map]. now rewrite import_calls_app, resolveSync_no_imports, IH.
Qed.

Lemma resolve_import_no_imports (fuel : nat) (st : string * Promise string) :
  import_calls
    (trace (resolve_import h (transformModule_fuel h (S fuel)) st)) = [].
Proof.
  unfold resolve_import. rewrite trace_async, trace_bind.
  destruct (snd st) as [u|e]; cbn [await trace outcome ret throw fst snd app];
    [|reflexivity].
  rewrite trace_bind_ret.
  destruct (Str.endsWith u ".json") eqn:E; [|reflexivity].
  rewrite trace_bind, import_calls_app.
  assert (Hload : import_calls (trace (p <- loadURL h u;; await p)) = []).
  { unfold loadURL.
    generalize (fileURLToPath h (Str u)). intros [path|e]; simpl;
      [destruct (readFile h path) |]; reflexivity. }
  rewrite Hload. cbn [app].
  destruct (outcome (p <- loadURL h u;; await p)) as [code|e|w];
    [|reflexivity ..].
  rewrite trace_bind_ret.
  rewrite (transformModule_fuel_json h fuel code
             {| url := Some u; conditions := None; extensions := None |}
             u eq_refl E).
  reflexivity.
Qed.

Lemma resolveImports_no_imports (fuel : nat) (code : string)
  (opts : option Opts) :
  import_calls
    (trace (resolveImports h (transformModule_fuel h (S fuel)) code opts))
  = [].
Proof.
  unfold resolveImports. rewrite trace_async.
  destruct (Regex.matchAll0 ESM_IMPORT_RE code) as [|i imports];
    [reflexivity|].
  destruct (started_phase h opts (Str.unique (i :: imports)))
    as [started Hs].
  rewrite trace_bind, Hs. cbn [trace outcome fst snd].
  rewrite import_calls_app.
  rewrite started_no_imports. cbn [app].
  rewrite trace_bind, import_calls_app.
  rewrite (map_M_no_imports _ started (resolve_import_no_imports fuel)).
  cbn [app].
  destruct (outcome (map_M (resolve_import h (transformModule_fuel h (S fuel)))
                       started)) as [settled|e|w];
    [|reflexivity ..].
  destruct (first_rejection (map snd started)); [reflexivity|].
  destruct (first_rejection settled); [reflexivity|].
  rewrite trace_bind, new_RegExp_trace. cbn [app].
  destruct (outcome (new_RegExp h _)); reflexivity.
Qed.

Lemma transformModule_no_imports (code : string) (opts : option Opts) :
  import_calls (trace (transformModule h code opts)) = [].
Proof.
  unfold transformModule. rewrite transformModule_fuel_S, trace_async.
  destruct opts as [o|]; [|reflexivity]. cbn [get_url].
  rewrite trace_bind. cbn [trace outcome ret fst snd app].
  destruct (match url o with
            | Some (String c u') => Str.endsWith (String c u') ".json"
            | _ => false
            end); [reflexivity|].
  pose proof (resolveImports_no_imports 0 code (Some o)) as Hq.
  destruct (resolveImports h (transformModule_fuel h 1) code (Some o))
    as [lr [[t|e]|e|w]]; cbn [trace fst] in Hq;
    cbn [bind await ret throw trace fst app];
    rewrite ?app_nil_r; try exact Hq.
  destruct (url o) as [[|c u]|]; unfold ret; cbn [trace fst];
    rewrite ?app_nil_r; exact Hq.
Qed.

End NoImport.

(** X17. Take a source whose transformation stays within the modelled
    part of the language (its run does not stop for lack of a model).
    [transformModule] imports nothing.  [evalModule] imports one unit, the
    data URL of the transformed text, when the transformation gives a text,
    and nothing when the transformation fails. *)
Theorem X17_only_the_unit_is_imported (h : Host) (code : string)
  (opts : option Opts) :
  let o := match opts with Some o => o | None => no_opts end in
  no_abort (transformModule h code opts) ->
  no_abort (transformModule h code (Some o)) ->
  import_calls (trace (transformModule h code opts)) = [] /\
  import_calls (trace (evalModule h code opts))
  = match outcome (transformModule h code (Some o)) with
    | Val (Fulfilled transformed) => [toDataURL transformed]
    | Val (Rejected _) => []
    | Exn _ => []
    | Abort w => []
    end.
Proof.
  intros o _ _. split; [apply transformModule_no_imports|].
  unfold evalModule. rewrite trace_async. fold o.
  pose proof (transformModule_no_imports h code (Some o)) as Hq.
  destruct (transformModule h code (Some o)) as [l [[t|e]|e|w]];
    cbn [trace outcome fst snd] in *; cbn [bind await ret throw trace fst];
    rewrite ?app_nil_r; try exact Hq.
  unfold call. cbn [try_catch].
  destruct (dynamic_import h (toDataURL t)) as [ns|err]; cbn [try_catch].
  - cbn [trace fst]. now rewrite !import_calls_app, Hq.
  - unfold new_RegExp.
    destruct (Regex.regexp_new (toDataURL t)); cbn [bind throw ret trace fst];
      now rewrite !import_calls_app, Hq.
Qed.

(** The unit of a source with one import that resolves. *)
Lemma X17_only_the_unit_is_imported_witness :
  import_calls
    (trace (transformModule (Fixture.project ["./a.mjs"])
              "import a from './a.mjs'" None)) = [] /\
  import_calls
    (trace (evalModule (Fixture.project ["./a.mjs"])
              "import a from './a.mjs'" None))
  = [toDataURL "import a from 'file:///proj/a.mjs'"].
Proof.
  assert (Ha : no_abort (transformModule (Fixture.project ["./a.mjs"])
                           "import a from './a.mjs'" None)).
  { intros w H. vm_compute in H. discriminate H. }
  assert (Hb : no_abort (transformModule (Fixture.project ["./a.mjs"])
                           "import a from './a.mjs'" (Some no_opts))).
  { intros w H. vm_compute in H. discriminate H. }
  exact (X17_only_the_unit_is_imported (Fixture.project ["./a.mjs"])
           "import a from './a.mjs'" None Ha Hb).
Defined.

(** ** An import that does not resolve *)

Section Unresolved.

Variable h : Host.
Variable opts : option Opts.

Lemma resolve_promised (id : string) :
  exists p,
    resolve h id opts = (trace (resolveSync h id opts), Val p) /\
    promised h (outcome (resolveSync h id opts)) p.
Proof.
  unfold resolve. rewrite pcall_eq.
  pose proof (resolveSync_no_abort h id opts) as Hn.
  destruct (outcome (resolveSync h id opts)) as [v|e|w] eqn:E.
  - now exists (Fulfilled v).
  - now exists (Rejected (wrapped h e)).
  - exfalso. exact (Hn w E).
Qed.

Lemma started_promised (ids : list string) :
  exists t started,
    map_M (fun id => p <- resolve h id opts;; ret (id, p)) ids
    = (t, Val started) /\
    Forall2 (fun id st =>
               promised h (outcome (resolveSync h id opts)) (snd st))
            ids started.
Proof.
  induction ids as [|id ids (t & started & IH & Hall)].
  - exists [], []. split; [reflexivity | constructor].
  - destruct (resolve_promised id) as [p [Hp Hprom]].
    eexists. exists ((id, p) :: started). cbn [map_M].
    rewrite Hp, IH. cbn [bind ret]. split; [reflexivity|].
    constructor; assumption.
Qed.

Lemma first_rejection_split (pre post : list string) (id : string)
  (e : JsError) (started : list (string * Promise string)) :
  Forall2 (fun id st =>
             promised h (outcome (resolveSync h id opts)) (snd st))
          (pre ++ id :: post) started ->
  (forall x, In x pre -> exists v, outcome (resolveSync h x opts) = Val v) ->
  outcome (resolveSync h id opts) = Exn e ->
  first_rejection (map snd started) = Some (wrapped h e).
Proof.
  revert started; induction pre as [|x pre IH]; intros started Hall Hpre He.
  - inversion Hall as [|i st ids sts Hp _]; subst.
    rewrite He in Hp. cbn [promised] in Hp. cbn [map first_rejection].
    now rewrite Hp.
  - inversion Hall as [|i st ids sts Hp Hrest]; subst.
    destruct (Hpre x (or_introl eq_refl)) as [v Hv].
    rewrite Hv in Hp. cbn [promised] in Hp. cbn [map first_rejection].
    rewrite Hp. apply IH; [exact Hrest | | exact He].
    intros y Hy. apply Hpre. now right.
Qed.

(** The callback of the rewriter always settles. *)
Lemma resolve_import_settles (st : string * Promise string) :
  exists t q,
    resolve_import h (transformModule_fuel h 1) st = (t, Val q).
Proof.
  unfold resolve_import.
  destruct (snd st) as [u|e]; cbn [await bind ret throw async];
    [|now eexists; eexists].
  destruct (Str.endsWith u ".json") eqn:E;
    [|cbn [bind ret async]; now eexists; eexists].
  unfold loadURL.
  generalize (fileURLToPath h (Str u)). intros [path|e];
    cbn [lift bind async await ret throw call];
    [|now eexists; eexists].
  unfold call. destruct (readFile h path) as [text|e];
    cbn [bind async await ret throw];
    [|now eexists; eexists].
  rewrite (transformModule_fuel_json h 0 text
             {| url := Some u; conditions := None; extensions := None |}
             u eq_refl E).
  cbn [bind async await ret throw]. now eexists; eexists.
Qed.

Lemma map_M_settles {A B} (f : A -> M B) (l : list A) :
  (forall a, exists t b, f a = (t, Val b)) ->
  exists t bs, map_M f l = (t, Val bs).
Proof.
  intros H. induction l as [|a l (t & bs & IH)].
  - now exists [], [].
  - destruct (H a) as (ta & b & Hb). cbn [map_M]. rewrite Hb, IH.
    cbn [bind ret]. now eexists; eexists.
Qed.

Lemma resolveImports_unresolved (code : string) (pre post : list string)
  (id : string) (e : JsError) :
  specifiers code = (pre ++ id :: post)%list ->
  (forall x, In x pre -> exists v, outcome (resolveSync h x opts) = Val v) ->
  outcome (resolveSync h id opts) = Exn e ->
  outcome (resolveImports h (transformModule_fuel h 1) code opts)
  = Val (Rejected (wrapped h e)).
Proof.
  intros Hspec Hpre He. unfold resolveImports.
  unfold specifiers in Hspec.
  destruct (Regex.matchAll0 ESM_IMPORT_RE code) as [|i imports].
  { destruct pre; discriminate Hspec. }
  destruct (started_promised (Str.unique (i :: imports)))
    as (t & started & Hs & Hall).
  rewrite Hs. rewrite Hspec in Hall.
  destruct (map_M_settles (resolve_import h (transformModule_fuel h 1))
              started resolve_import_settles) as (t2 & settled & Hset).
  cbn [bind]. rewrite Hset. cbn [bind].
  rewrite (first_rejection_split pre post id e started Hall Hpre He).
  reflexivity.
Qed.

End Unresolved.

(** X18. When one of the specifiers of a source does not resolve, and those
    before it in the order of first occurrence do, [resolveImports] returns
    a rejected promise and no text: the failure is that of the first
    unresolved specifier as [resolve] wraps it, a new error whose message is
    the text the original failure converts to by its own [toString], with
    the code of the original failure. *)
Theorem X18_first_unresolved_import (h : Host) (code : string)
  (opts : option Opts) (pre post : list string) (id : string) (e : JsError) :
  specifiers code = (pre ++ id :: post)%list ->
  (forall x, In x pre -> exists v, outcome (resolveSync h x opts) = Val v) ->
  outcome (resolveSync h id opts) = Exn e ->
  outcome (resolveImports h (transformModule_fuel h 1) code opts)
  = Val (Rejected (wrapped h e)) /\
  err_message (wrapped h e) = err_toString e /\
  err_code (wrapped h e) = err_code e.
Proof.
  intros Hspec Hpre He. split; [|split; reflexivity].
  now apply (resolveImports_unresolved h opts code pre post id e).
Qed.

(** The second import is refused by the host as an invalid specifier. *)
Lemma X18_first_unresolved_import_witness :
  outcome
    (resolveImports
       (Fixture.host (Fixture.files_refusing ["./a.mjs"] "@bad")
          Fixture.empty_module)
       (transformModule_fuel
          (Fixture.host (Fixture.files_refusing ["./a.mjs"] "@bad")
          Fixture.empty_module) 1)
       "import a from './a.mjs'; import b from '@bad'" None)
  = Val (Rejected
           (wrapped
              (Fixture.host (Fixture.files_refusing ["./a.mjs"] "@bad")
          Fixture.empty_module)
              (Fixture.invalid_specifier "@bad"))) /\
  err_message
    (wrapped
       (Fixture.host (Fixture.files_refusing ["./a.mjs"] "@bad")
          Fixture.empty_module)
       (Fixture.invalid_specifier "@bad"))
  = "TypeError [ERR_INVALID_MODULE_SPECIFIER]: Invalid module @bad is not a valid package name" /\
  err_code
    (wrapped
       (Fixture.host (Fixture.files_refusing ["./a.mjs"] "@bad")
          Fixture.empty_module)
       (Fixture.invalid_specifier "@bad"))
  = Some "ERR_INVALID_MODULE_SPECIFIER".
Proof.
  apply (X18_first_unresolved_import
           (Fixture.host (Fixture.files_refusing ["./a.mjs"] "@bad")
          Fixture.empty_module)
           "import a from './a.mjs'; import b from '@bad'" None
           ["./a.mjs"] [] "@bad").
  - vm_compute. reflexivity.
  - intros x [<-|[]]. eexists. vm_compute. reflexivity.
  - vm_compute. reflexivity.
Defined.
